(** * pylifemap: aggregation of observations along the lifemap tree

    A shallow embedding of [src/pylifemap/aggregations.py].  The module is
    written against the polars dataframe engine; the part of the engine the
    module calls (expressions, [select], [with_columns], left join, [explode],
    [concat], [group_by], [pivot], [sort]) is modelled below on frames made of
    a list of column names and a list of rows.  The entry points themselves
    ([ensure_polars], [ensure_int32], [ensure_column_exists], [aggregate_num],
    [aggregate_count], [aggregate_cat], [preprocess_counts]) follow the source
    statement by statement.

    Conventions of the model:
    - exceptions are values of an error monad ([Ok] / [Raise]);
    - integer cells are mathematical integers, the width of a payload column
      being the caller's choice; the only fixed-width column is the
      identifier column, whose cast to 32 bits is written out;
    - the Float64 results of [mean] and [median] are represented by the exact
      fraction they stand for;
    - the engine leaves the order of the groups of [group_by] and of
      [unique] unspecified; the model uses the order of first appearance. *)

From Stdlib Require Import List ZArith String Ascii Bool Lia QArith.
From Stdlib Require Import Permutation Sorted DecimalString.
Import ListNotations.
Local Open Scope string_scope.
Local Open Scope Z_scope.

(** ** Cells and frames *)

Inductive cell : Type :=
| Null
| Int (z : Z)
| Float (q : Q)
| Str (s : string)
| Lst (l : list Z).

Fixpoint zlist_eqb (l m : list Z) : bool :=
  match l, m with
  | [], [] => true
  | x :: l', y :: m' => (x =? y) && zlist_eqb l' m'
  | _, _ => false
  end.

Definition cell_eqb (a b : cell) : bool :=
  match a, b with
  | Null, Null => true
  | Int x, Int y => x =? y
  | Float p, Float q => (Qnum p =? Qnum q) && Pos.eqb (Qden p) (Qden q)
  | Str s, Str t => String.eqb s t
  | Lst l, Lst m => zlist_eqb l m
  | _, _ => false
  end.

Definition row := list cell.

Record DataFrame : Type := mkDF { columns : list string; rows : list row }.

(** ** Exceptions *)

Inductive error : Type :=
| TypeError (msg : string)
| ValueError (msg : string)
| ColumnNotFoundError (name : string)
| DuplicateError (name : string)
| InvalidOperationError (msg : string)
| ShapeError (msg : string).

Inductive result (A : Type) : Type :=
| Ok (a : A)
| Raise (e : error).

Arguments Ok {A} a.
Arguments Raise {A} e.

Definition bind {A B : Type} (c : result A) (k : A -> result B) : result B :=
  match c with
  | Ok a => k a
  | Raise e => Raise e
  end.

Notation "x <- c ;; k" := (bind c (fun x => k))
  (at level 61, c at next level, right associativity).
Notation "c ;;; k" := (bind c (fun _ => k))
  (at level 61, right associativity).

Fixpoint mapM {A B : Type} (f : A -> result B) (l : list A) : result (list B) :=
  match l with
  | [] => Ok []
  | x :: l' => y <- f x ;; ys <- mapM f l' ;; Ok (y :: ys)
  end.

(** ** Column names *)

Fixpoint index_of (name : string) (cols : list string) : option nat :=
  match cols with
  | [] => None
  | c :: cs =>
      if String.eqb name c then Some 0%nat else option_map S (index_of name cs)
  end.

Definition mem (name : string) (cols : list string) : bool :=
  existsb (String.eqb name) cols.

Definition find_column (cols : list string) (name : string) : result nat :=
  match index_of name cols with
  | Some i => Ok i
  | None => Raise (ColumnNotFoundError name)
  end.

Fixpoint first_duplicate (names : list string) : option string :=
  match names with
  | [] => None
  | n :: ns => if mem n ns then Some n else first_duplicate ns
  end.

Definition check_unique (names : list string) : result unit :=
  match first_duplicate names with
  | Some n => Raise (DuplicateError n)
  | None => Ok tt
  end.

Definition get (i : nat) (r : row) : cell := nth i r Null.

Fixpoint replace_nth (i : nat) (c : cell) (r : row) : row :=
  match r, i with
  | [], _ => []
  | _ :: r', O => c :: r'
  | x :: r', S i' => x :: replace_nth i' c r'
  end.

(** ** The cast to Int32

    [Expr.cast] is strict unless told otherwise: a value that the target type
    cannot hold makes the whole cast raise. *)

Definition int32_min : Z := -2147483648.
Definition int32_max : Z := 2147483647.

Definition fits_int32 (z : Z) : bool := (int32_min <=? z) && (z <=? int32_max).

Definition cast_failed : error :=
  InvalidOperationError "conversion to i32 failed".

Definition int32_of (z : Z) : result cell :=
  if fits_int32 z then Ok (Int z) else Raise cast_failed.

Definition cast_cell_int32 (c : cell) : result cell :=
  match c with
  | Null => Ok Null
  | Int z => int32_of z
  | Float q => int32_of (Z.quot (Qnum q) (Zpos (Qden q)))
  | Str s =>
      match NilZero.int_of_string s with
      | Some i => int32_of (Z.of_int i)
      | None => Raise cast_failed
      end
  | Lst _ => Raise cast_failed
  end.

(** ** Expressions *)

Definition dquote : string := String "034"%char EmptyString.

Definition render (c : cell) : string :=
  match c with
  | Null => "null"
  | Int z => NilZero.string_of_int (Z.to_int z)
  | Float q =>
      NilZero.string_of_int (Z.to_int (Qnum q)) ++ "/" ++
      NilZero.string_of_int (Z.to_int (Zpos (Qden q)))
  | Str s => s
  | Lst _ => "list"
  end.

(** [struct.json_encode]: one object per row, the fields in the order of the
    struct. *)
Definition json_field (f : string * cell) : string :=
  dquote ++ fst f ++ dquote ++ ":" ++
  match snd f with
  | Str s => dquote ++ s ++ dquote
  | c => render c
  end.

Definition json_encode (fields : list (string * cell)) : string :=
  "{" ++ String.concat "," (map json_field fields) ++ "}".

Inductive expr : Type :=
| col (name : string)
| lit (c : cell)
| alias (e : expr) (name : string)
| cast_int32 (e : expr)
| struct_json (names : list string).

Fixpoint output_name (e : expr) : string :=
  match e with
  | col name => name
  | lit _ => "literal"
  | alias _ name => name
  | cast_int32 e' => output_name e'
  | struct_json names => hd "literal" names
  end.

(** An expression is resolved against the schema first (a missing column is
    reported even on a frame without rows), then evaluated row by row. *)
Fixpoint compile (cols : list string) (e : expr) : result (row -> result cell) :=
  match e with
  | col name => i <- find_column cols name ;; Ok (fun r => Ok (get i r))
  | lit c => Ok (fun _ => Ok c)
  | alias e' _ => compile cols e'
  | cast_int32 e' =>
      f <- compile cols e' ;; Ok (fun r => c <- f r ;; cast_cell_int32 c)
  | struct_json names =>
      idx <- mapM (find_column cols) names ;;
      Ok (fun r =>
            Ok (Str (json_encode (combine names (map (fun i => get i r) idx)))))
  end.

Definition eval_row (fs : list (row -> result cell)) (r : row) : result row :=
  mapM (fun f => f r) fs.

Definition select (d : DataFrame) (es : list expr) : result DataFrame :=
  fs <- mapM (compile (columns d)) es ;;
  check_unique (map output_name es) ;;;
  rs <- mapM (eval_row fs) (rows d) ;;
  Ok (mkDF (map output_name es) rs).

Definition upsert_name (cols : list string) (name : string) : list string :=
  if mem name cols then cols else (cols ++ [name])%list.

Definition upsert_cell (cols : list string) (r : row) (name : string) (c : cell)
  : row :=
  match index_of name cols with
  | Some i => replace_nth i c r
  | None => (r ++ [c])%list
  end.

Fixpoint upsert_cells (cols : list string) (r : row) (upd : list (string * cell))
  : row :=
  match upd with
  | [] => r
  | (name, c) :: upd' =>
      upsert_cells (upsert_name cols name) (upsert_cell cols r name c) upd'
  end.

(** [with_columns]: every expression is evaluated on the frame as it was; a
    column of the same name is replaced where it stands, a new one is added
    at the end. *)
Definition with_columns (d : DataFrame) (es : list expr) : result DataFrame :=
  fs <- mapM (compile (columns d)) es ;;
  check_unique (map output_name es) ;;;
  rs <- mapM (fun r =>
                vs <- eval_row fs r ;;
                Ok (upsert_cells (columns d) r (combine (map output_name es) vs)))
             (rows d) ;;
  Ok (mkDF (fold_left upsert_name (map output_name es) (columns d)) rs).

(** [select(pl.all().exclude(names))]. *)
Definition exclude_row (cols : list string) (names : list string) (r : row) : row :=
  map snd (filter (fun p => negb (mem (fst p) names)) (combine cols r)).

Definition select_all_exclude (d : DataFrame) (names : list string) : DataFrame :=
  mkDF (filter (fun c => negb (mem c names)) (columns d))
       (map (exclude_row (columns d) names) (rows d)).

Definition get_column (d : DataFrame) (name : string) : result (list cell) :=
  i <- find_column (columns d) name ;; Ok (map (get i) (rows d)).

Definition rename (d : DataFrame) (old new : string) : result DataFrame :=
  find_column (columns d) old ;;;
  let cols := map (fun c => if String.eqb c old then new else c) (columns d) in
  check_unique cols ;;;
  Ok (mkDF cols (rows d)).

(** ** Joins, explode and concatenation *)

(** Join keys: a null key matches nothing. *)
Definition key_match (a b : cell) : bool :=
  match a with
  | Null => false
  | _ => cell_eqb a b
  end.

Fixpoint remove_nth {A : Type} (i : nat) (l : list A) : list A :=
  match l, i with
  | [], _ => []
  | _ :: l', O => l'
  | x :: l', S i' => x :: remove_nth i' l'
  end.

(** Left join on one key column: the rows of the left frame in their order,
    each once per matching row of the right frame, or once with nulls. *)
Definition join_left (d other : DataFrame) (on : string) : result DataFrame :=
  i <- find_column (columns d) on ;;
  j <- find_column (columns other) on ;;
  let right_names :=
    map (fun n => if mem n (columns d) then n ++ "_right" else n)
        (remove_nth j (columns other)) in
  check_unique (columns d ++ right_names)%list ;;;
  Ok (mkDF (columns d ++ right_names)%list
        (flat_map
           (fun r =>
              match filter (fun r' => key_match (get i r) (get j r')) (rows other) with
              | [] => [(r ++ map (fun _ => Null) right_names)%list]
              | ms => map (fun r' => (r ++ remove_nth j r')%list) ms
              end)
           (rows d))).

(** [explode]: one row per element of the list; a null or an empty list
    gives one row holding null. *)
Definition explode_row (i : nat) (r : row) : result (list row) :=
  match get i r with
  | Null => Ok [replace_nth i Null r]
  | Lst [] => Ok [replace_nth i Null r]
  | Lst l => Ok (map (fun z => replace_nth i (Int z) r) l)
  | _ => Raise (InvalidOperationError "explode: not a list column")
  end.

Definition explode (d : DataFrame) (name : string) : result DataFrame :=
  i <- find_column (columns d) name ;;
  rss <- mapM (explode_row i) (rows d) ;;
  Ok (mkDF (columns d) (List.concat rss)).

Fixpoint names_eqb (a b : list string) : bool :=
  match a, b with
  | [], [] => true
  | x :: a', y :: b' => String.eqb x y && names_eqb a' b'
  | _, _ => false
  end.

(** [pl.concat], vertical: the frames must have the same columns in the same
    order.  (The relaxed variant also brings the columns to a common type,
    which changes no cell of the columns this module concatenates.) *)
Fixpoint pl_concat (fs : list DataFrame) : result DataFrame :=
  match fs with
  | [] => Raise (ValueError "cannot concat empty list")
  | [d] => Ok d
  | d :: fs' =>
      rest <- pl_concat fs' ;;
      if names_eqb (columns d) (columns rest)
      then Ok (mkDF (columns d) (rows d ++ rows rest)%list)
      else Raise (ShapeError "unable to vstack, column names do not match")
  end.

(** ** Grouping and reductions *)

Fixpoint keys_eqb (a b : list cell) : bool :=
  match a, b with
  | [], [] => true
  | x :: a', y :: b' => cell_eqb x y && keys_eqb a' b'
  | _, _ => false
  end.

(** Distinct values, in the order of their first appearance. *)
Fixpoint dedup {A : Type} (eqb : A -> A -> bool) (l : list A) : list A :=
  match l with
  | [] => []
  | k :: l' => k :: filter (fun k' => negb (eqb k k')) (dedup eqb l')
  end.

Definition unique (l : list cell) : list cell := dedup cell_eqb l.

Record GroupBy : Type := mkGB {
  gb_columns : list string;
  gb_keys : list string;
  gb_groups : list (list cell * list row)
}.

(** A null key is a key like any other: the rows without a key value form
    a group of their own. *)
Definition key_of (idx : list nat) (r : row) : list cell :=
  map (fun i => get i r) idx.

Definition groups_of (idx : list nat) (rs : list row) : list (list cell * list row) :=
  map (fun k => (k, filter (fun r => keys_eqb (key_of idx r) k) rs))
      (dedup keys_eqb (map (key_of idx) rs)).

Definition group_by (d : DataFrame) (keys : list string) : result GroupBy :=
  idx <- mapM (find_column (columns d)) keys ;;
  Ok (mkGB (columns d) keys (groups_of idx (rows d))).

Inductive reducer : Type := pl_sum | pl_mean | pl_min | pl_max | pl_median.

(** The reductions skip nulls. *)
Definition numbers (cs : list cell) : list Z :=
  flat_map (fun c => match c with Int z => [z] | _ => [] end) cs.

Definition zsum (l : list Z) : Z := fold_right Z.add 0 l.

Fixpoint zinsert (x : Z) (l : list Z) : list Z :=
  match l with
  | [] => [x]
  | y :: l' => if x <=? y then x :: y :: l' else y :: zinsert x l'
  end.

Definition zsort (l : list Z) : list Z := fold_right zinsert [] l.

Definition median_of (l : list Z) : cell :=
  let s := zsort l in
  let n := List.length s in
  match n with
  | O => Null
  | _ =>
      if Nat.odd n then Float (nth (n / 2) s 0 # 1)
      else Float (Qred ((nth (n / 2 - 1) s 0 + nth (n / 2) s 0) # 2))
  end.

Definition reduce (fn : reducer) (cs : list cell) : cell :=
  match fn, numbers cs with
  | pl_sum, l => Int (zsum l)
  | _, [] => Null
  | pl_mean, l => Float (Qred (zsum l # Pos.of_nat (List.length l)))
  | pl_min, x :: l => Int (fold_right Z.min x l)
  | pl_max, x :: l => Int (fold_right Z.max x l)
  | pl_median, l => median_of l
  end.

(** [GroupBy.agg(fn(column))]. *)
Definition agg (g : GroupBy) (fn : reducer) (column : string) : result DataFrame :=
  i <- find_column (gb_columns g) column ;;
  check_unique (gb_keys g ++ [column])%list ;;;
  Ok (mkDF (gb_keys g ++ [column])%list
        (map (fun kg => (fst kg ++ [reduce fn (map (get i) (snd kg))])%list)
             (gb_groups g))).

(** [GroupBy.len(name)]. *)
Definition len (g : GroupBy) (name : string) : result DataFrame :=
  check_unique (gb_keys g ++ [name])%list ;;;
  Ok (mkDF (gb_keys g ++ [name])%list
        (map (fun kg => (fst kg ++ [Int (Z.of_nat (List.length (snd kg)))])%list)
             (gb_groups g))).

(** [GroupBy.count()]: the older spelling, the column is named count. *)
Definition count (g : GroupBy) : result DataFrame := len g "count".

(** ** Pivot

    [pivot(index, columns, values)] without an aggregation function: one row
    per value of the index column, one column per value of the pivoted
    column, named by that value; a missing combination is null, a repeated
    one is an error. *)
Definition pivot_cell (i c v : nat) (rs : list row) (k l : cell) : result cell :=
  match filter (fun r => cell_eqb (get i r) k && cell_eqb (get c r) l) rs with
  | [] => Ok Null
  | [r] => Ok (get v r)
  | _ => Raise (InvalidOperationError
                  "found multiple elements in the same group")
  end.

Definition pivot (d : DataFrame) (index columns_ values : string) : result DataFrame :=
  i <- find_column (columns d) index ;;
  c <- find_column (columns d) columns_ ;;
  v <- find_column (columns d) values ;;
  let levels := unique (map (get c) (rows d)) in
  let names := index :: map render levels in
  check_unique names ;;;
  rs <- mapM (fun k =>
                cells <- mapM (pivot_cell i c v (rows d) k) levels ;;
                Ok (k :: cells))
             (unique (map (get i) (rows d))) ;;
  Ok (mkDF names rs).

(** [fill_null(value)] with an integer: every numeric column is filled; the
    frames this module fills hold integer columns only. *)
Definition fill_null (d : DataFrame) (value : cell) : DataFrame :=
  mkDF (columns d)
       (map (map (fun c => match c with Null => value | _ => c end)) (rows d)).

(** ** Sorting *)

Definition rank (c : cell) : nat :=
  match c with
  | Null => 0
  | Int _ => 1
  | Float _ => 2
  | Str _ => 3
  | Lst _ => 4
  end.

(** Ascending order with nulls first. *)
Definition cell_leb (a b : cell) : bool :=
  match a, b with
  | Int x, Int y => x <=? y
  | Float p, Float q => Qle_bool p q
  | Str s, Str t => String.leb s t
  | _, _ => (rank a <=? rank b)%nat
  end.

Definition cell_le (a b : cell) : Prop := cell_leb a b = true.

Fixpoint insert_row (i : nat) (r : row) (l : list row) : list row :=
  match l with
  | [] => [r]
  | r' :: l' =>
      if cell_leb (get i r) (get i r') then r :: r' :: l'
      else r' :: insert_row i r l'
  end.

Definition sort_rows (i : nat) (l : list row) : list row :=
  fold_right (insert_row i) [] l.

Definition sort (d : DataFrame) (by_ : string) : result DataFrame :=
  i <- find_column (columns d) by_ ;;
  Ok (mkDF (columns d) (sort_rows i (rows d))).

(** ** The module *)

(** What the caller may hand over: a pandas frame, a polars frame, or some
    other object. *)
Inductive pyobj : Type :=
| PandasDataFrame (d : DataFrame)
| PolarsDataFrame (d : DataFrame)
| PyOther.

Definition ensure_polars (d : pyobj) : result DataFrame :=
  match d with
  | PandasDataFrame d' => Ok d'
  | PolarsDataFrame d' => Ok d'
  | PyOther => Raise (TypeError "data must be a pandas or polars DataFrame.")
  end.

Definition ensure_int32 (d : DataFrame) (taxid_col : string) : result DataFrame :=
  with_columns d [cast_int32 (col taxid_col)].

Definition ensure_column_exists (d : DataFrame) (column : string) : result unit :=
  if negb (mem column (columns d))
  then Raise (ValueError (column ++ " is not a column of the DataFrame."))
  else Ok tt.

Definition fn_dict : list (string * reducer) :=
  [("sum", pl_sum); ("mean", pl_mean); ("min", pl_min); ("max", pl_max);
   ("median", pl_median)].

Fixpoint lookup {A : Type} (k : string) (l : list (string * A)) : option A :=
  match l with
  | [] => None
  | (k', v) :: l' => if String.eqb k k' then Some v else lookup k l'
  end.

(** The text of [fn_dict.keys()] inside an f-string. *)
Definition dict_keys {A : Type} (l : list (string * A)) : string :=
  "dict_keys([" ++ String.concat ", " (map (fun kv => "'" ++ fst kv ++ "'") l)
  ++ "])".

(** [pl.col(columns)] on a Python list: every item must be a column name. *)
Definition col_names (columns_ : list cell) : result (list string) :=
  mapM (fun c => match c with
                 | Str s => Ok s
                 | _ => Raise (TypeError "invalid input for col")
                 end) columns_.

Definition preprocess_counts (d : pyobj) (columns_ : list cell) (result_col : string)
  : result DataFrame :=
  d <- ensure_polars d ;;
  names <- col_names columns_ ;;
  d <- with_columns d [alias (struct_json names) result_col;
                       alias (lit (Str "count")) "pylifemap_count_type"] ;;
  Ok (select_all_exclude d names).

Section Aggregations.

(** The ancestor table of [pylifemap.utils], loaded once and read by every
    call: a frame with at least the columns taxid and pylifemap_ascend. *)
Variable LMDATA : DataFrame.

Definition aggregate_num (d : pyobj) (column fn taxid_col : string)
  : result DataFrame :=
  d <- ensure_polars d ;;
  ensure_column_exists d column ;;;
  ensure_column_exists d taxid_col ;;;
  d <- ensure_int32 d taxid_col ;;
  if String.eqb column "taxid" then
    Raise (ValueError
      "Can't aggregate on the taxid column, please make a copy and rename it before.")
  else
    match lookup fn fn_dict with
    | None =>
        Raise (ValueError ("fn value must be one of " ++ dict_keys fn_dict ++ "."))
    | Some agg_fn =>
        d <- select d [alias (col taxid_col) "taxid"; col column] ;;
        lm <- select LMDATA [col "taxid"; col "pylifemap_ascend"] ;;
        res <- join_left d lm "taxid" ;;
        res <- explode res "pylifemap_ascend" ;;
        obs <- with_columns d [alias (col "taxid") "pylifemap_ascend"] ;;
        res <- pl_concat [res; obs] ;;
        g <- group_by res ["pylifemap_ascend"] ;;
        res <- agg g agg_fn column ;;
        res <- rename res "pylifemap_ascend" "taxid" ;;
        sort res "taxid"
    end.

Definition aggregate_count (d : pyobj) (result_col taxid_col : string)
  : result DataFrame :=
  d <- ensure_polars d ;;
  ensure_column_exists d taxid_col ;;;
  d <- ensure_int32 d taxid_col ;;
  d <- select d [alias (col taxid_col) "taxid"] ;;
  lm <- select LMDATA [col "taxid"; col "pylifemap_ascend"] ;;
  res <- join_left d lm "taxid" ;;
  res <- explode res "pylifemap_ascend" ;;
  obs <- with_columns d [alias (col "taxid") "pylifemap_ascend"] ;;
  res <- pl_concat [res; obs] ;;
  g <- group_by res ["pylifemap_ascend"] ;;
  res <- len g result_col ;;
  res <- rename res "pylifemap_ascend" "taxid" ;;
  sort res "taxid".

Definition aggregate_cat (d : pyobj) (column : string) (keep_leaves : bool)
  (taxid_col : string) : result DataFrame :=
  d <- ensure_polars d ;;
  d <- ensure_int32 d taxid_col ;;
  d <- select d [alias (col taxid_col) "taxid"; col column] ;;
  levels <- get_column d column ;;
  let levels := unique levels in
  lm <- select LMDATA [col "taxid"; col "pylifemap_ascend"] ;;
  res <- join_left d lm "taxid" ;;
  res <- explode res "pylifemap_ascend" ;;
  g <- group_by res ["pylifemap_ascend"; column] ;;
  res <- count g ;;
  res <- rename res "pylifemap_ascend" "taxid" ;;
  res <- pivot res "taxid" column "count" ;;
  let res := fill_null res (Int 0) in
  res <- preprocess_counts (PolarsDataFrame res) levels column ;;
  if keep_leaves then
    leaves <- select d [col taxid_col; col column] ;;
    leaves <- with_columns leaves [alias (lit (Str "leaf")) "pylifemap_count_type"] ;;
    pl_concat [res; leaves]
  else Ok res.

End Aggregations.

(** ** The ancestor table seen as a mapping

    The columns taxid and pylifemap_ascend of the ancestor table: one row per
    taxid, holding the list of its ancestors. *)

Definition mapping : Type := list (Z * list Z).

Definition mapping_frame (m : mapping) : DataFrame :=
  mkDF ["taxid"; "pylifemap_ascend"]
       (map (fun ka => [Int (fst ka); Lst (snd ka)]) m).

Definition ancestors (m : mapping) (k : Z) : list Z :=
  flat_map snd (filter (fun ka => fst ka =? k) m).

(** A mapping that comes from a tree: one row per taxid, no ancestor listed
    twice, no node among its own ancestors. *)
Definition tree_like (m : mapping) : Prop :=
  NoDup (map fst m) /\
  forall k a, In (k, a) m -> NoDup a /\ ~ In k a.

(** Closed forms of the expansion steps.  [joined m k] is what the left join
    puts next to a row of key [k], [ascend m k] what [explode] makes of it:
    the ancestors of [k], or one null when there is none. *)
Definition joined (m : mapping) (k : cell) : list cell :=
  match filter (fun ka => key_match k (Int (fst ka))) m with
  | [] => [Null]
  | ms => map (fun ka => Lst (snd ka)) ms
  end.

Definition explode_cell (c : cell) : list cell :=
  match c with
  | Lst (z :: l) => map Int (z :: l)
  | _ => [Null]
  end.

Definition explode_pure (i : nat) (r : row) : list row :=
  map (fun a => replace_nth i a r) (explode_cell (get i r)).

Definition ascend (m : mapping) (k : cell) : list cell :=
  flat_map explode_cell (joined m k).

Definition expanded_rows (m : mapping) (i : nat) (rs : list row) : list row :=
  flat_map (fun r => map (fun a => (r ++ [a])%list) (ascend m (get i r))) rs.

Definition self_rows (i : nat) (rs : list row) : list row :=
  map (fun r => (r ++ [get i r])%list) rs.

(** The rows of the group of identifier [t], the key being at position [n]. *)
Definition in_group (n : nat) (t : Z) (r : row) : bool :=
  keys_eqb (key_of [n] r) [Int t].

(** The rows of the subtree of [t]: the rows of node [t] itself and the rows
    of the nodes that have [t] among their ancestors. *)
Definition in_subtree (m : mapping) (t : Z) (c : cell) : bool :=
  match c with
  | Int k => (k =? t) || existsb (Z.eqb t) (ancestors m k)
  | _ => false
  end.

Definition subtree_rows (m : mapping) (d : DataFrame) (taxid_col : string) (t : Z)
  : list row :=
  match index_of taxid_col (columns d) with
  | Some i => filter (fun r => in_subtree m t (get i r)) (rows d)
  | None => []
  end.

Definition column_of (d : DataFrame) (column : string) (rs : list row) : list cell :=
  match index_of column (columns d) with
  | Some j => map (get j) rs
  | None => []
  end.

(** The value a result table gives to an identifier, if it has a row for it. *)
Definition value_at (res : DataFrame) (column : string) (id : cell) : option cell :=
  match index_of "taxid" (columns res), index_of column (columns res) with
  | Some i, Some j =>
      option_map (get j) (find (fun r => cell_eqb (get i r) id) (rows res))
  | _, _ => None
  end.

(** Input tables as the data model has them: the identifier column exists
    and holds 32-bit integers (or nulls); a numeric column exists and holds
    integers (or nulls). *)
Definition is_id32 (c : cell) : bool :=
  match c with
  | Null => true
  | Int z => fits_int32 z
  | _ => false
  end.

Definition is_number (c : cell) : bool :=
  match c with
  | Null | Int _ => true
  | _ => false
  end.

Definition column_holds (p : cell -> bool) (d : DataFrame) (name : string) : Prop :=
  exists i, index_of name (columns d) = Some i /\
            forall r, In r (rows d) -> p (get i r) = true.

(** A key without ancestors in the mapping: a null, a taxid the mapping does
    not list, or one it lists with an empty ancestor list (the root). *)
Definition no_ancestors (m : mapping) (k : cell) : Prop :=
  match k with
  | Int z => ancestors m z = []
  | _ => True
  end.

(** ** The synthetic tree of the specification

    root (1) has the children A (2) and B (3); A has the leaves 4 and 5,
    B has the leaf 6.  Each node lists its ancestors, nearest first. *)

Definition tree_map : mapping :=
  [(1, []); (2, [1]); (3, [1]); (4, [2; 1]); (5, [2; 1]); (6, [3; 1])].

Definition tree : DataFrame := mapping_frame tree_map.

Definition observations : DataFrame :=
  mkDF ["taxid"; "value"] [[Int 4; Int 2]; [Int 5; Int 3]; [Int 6; Int 5]].

(** Observations on the synthetic tree. *)

Definition root_only : DataFrame :=
  mkDF ["taxid"; "value"] [[Int 1; Int 7]].

Definition too_wide : DataFrame :=
  mkDF ["taxid"; "value"] [[Int 2147483648; Int 1]].

Definition categories : DataFrame :=
  mkDF ["taxid"; "cat"] [[Int 4; Str "a"]; [Int 5; Str "b"]; [Int 6; Str "a"]].

Definition categories_at_node : DataFrame :=
  mkDF ["taxid"; "cat"] [[Int 4; Str "a"]; [Int 2; Str "b"]].

Definition categories_by_id : DataFrame :=
  mkDF ["id"; "cat"] [[Int 4; Str "a"]; [Int 5; Str "b"]; [Int 6; Str "a"]].

Definition category_named_taxid : DataFrame :=
  mkDF ["id"; "taxid"] [[Int 4; Str "a"]].

(** The sorted keys of a table, as a list of cells. *)
Fixpoint insert_cell (c : cell) (l : list cell) : list cell :=
  match l with
  | [] => [c]
  | c' :: l' => if cell_leb c c' then c :: c' :: l' else c' :: insert_cell c l'
  end.

Definition sort_cells (l : list cell) : list cell := fold_right insert_cell [] l.

(** The keys of the rows that are grouped: for every input row the cells of
    its expansion, then, for every input row, its own identifier. *)
Definition expansion_keys (m : mapping) (i : nat) (rs : list row) : list (list cell) :=
  (flat_map (fun r => map (fun a => [a]) (ascend m (get i r))) rs ++
   map (fun r => [get i r]) rs)%list.

(** The cells a key column of the grouped rows holds: a taxid or null. *)
Definition is_key (c : cell) : bool :=
  match c with
  | Null | Int _ => true
  | _ => false
  end.

(** The distribution [aggregate_cat] gives to a key [k]: for every level, the
    number of input rows of that category which have [k] in their expansion;
    the levels are the distinct categories of the input. *)
Definition strings (cs : list cell) : list string :=
  flat_map (fun c => match c with Str s => [s] | _ => [] end) cs.

Definition is_text (c : cell) : bool :=
  match c with
  | Str _ => true
  | _ => false
  end.

Definition cat_count (m : mapping) (i j : nat) (rs : list row) (k l : cell) : nat :=
  List.length
    (filter (fun r => cell_eqb (get j r) l && existsb (cell_eqb k) (ascend m (get i r)))
            rs).

Definition distribution (m : mapping) (i j : nat) (rs : list row) (k : cell)
  (names : list string) : string :=
  json_encode
    (map (fun s => (s, Int (Z.of_nat (cat_count m i j rs k (Str s))))) names).

Definition fill_cell (value c : cell) : cell :=
  match c with
  | Null => value
  | _ => c
  end.

(** The value [pivot] finds for an index value and a level, when no
    combination is repeated. *)
Definition pivot_value (i c v : nat) (rs : list row) (k l : cell) : cell :=
  match filter (fun r => cell_eqb (get i r) k && cell_eqb (get c r) l) rs with
  | [r] => get v r
  | _ => Null
  end.

(** Identifiers read from text. *)
Definition text_ids : DataFrame :=
  mkDF ["taxid"; "value"] [[Str "12"; Int 1]; [Str "-3"; Int 2]].

(** Categories on the synthetic tree, with one row at the root and one row
    whose taxid is not in the tree. *)
Definition categories_off_tree : DataFrame :=
  mkDF ["taxid"; "cat"] [[Int 1; Str "a"]; [Int 9; Str "a"]; [Int 4; Str "b"]].

(** ** Basic facts about the monad and about column names *)

Local Open Scope list_scope.

Lemma bind_ok {A B : Type} (c : result A) (k : A -> result B) (b : B) :
  bind c k = Ok b -> exists a, c = Ok a /\ k a = Ok b.
Proof.
  destruct c as [a|e]; simpl; intros H; [eauto | discriminate].
Qed.

Lemma bind_assoc {A B C : Type} (c : result A) (f : A -> result B)
  (g : B -> result C) :
  bind (bind c f) g = bind c (fun x => bind (f x) g).
Proof. destruct c; reflexivity. Qed.

Ltac inv_bind H :=
  let a := fresh "x" in
  let Ha := fresh "H" in
  apply bind_ok in H; destruct H as (a & Ha & H).

Lemma mapM_ext_ok {A B : Type} (f : A -> result B) (g : A -> B) (l : list A) :
  (forall x, In x l -> f x = Ok (g x)) -> mapM f l = Ok (map g l).
Proof.
  induction l as [|x l IH]; simpl; intros H; [reflexivity|].
  rewrite (H x (or_introl eq_refl)); simpl.
  rewrite IH by (intros; apply H; now right). reflexivity.
Qed.

Lemma mem_index_of (name : string) (cols : list string) :
  mem name cols = true <-> exists i, index_of name cols = Some i.
Proof.
  induction cols as [|c cs IH]; simpl.
  - split; [discriminate | intros (i & H); discriminate].
  - destruct (String.eqb name c); simpl.
    + split; eauto.
    + rewrite IH. split; intros (i & H).
      * rewrite H. simpl. eauto.
      * destruct (index_of name cs); simpl in H; [eauto | discriminate].
Qed.


(** ** Sorting *)

Lemma cell_leb_total (a b : cell) : cell_leb a b = false -> cell_leb b a = true.
Proof.
  destruct a, b; simpl; try discriminate; try reflexivity.
  - intros H. apply Z.leb_gt in H. apply Z.leb_le. lia.
  - intros H. apply Qle_bool_iff. apply Qlt_le_weak. apply Qnot_le_lt.
    intros Hle. apply Qle_bool_iff in Hle. congruence.
  - intros H. destruct (String.leb_total s s0) as [H1|H1]; congruence.
Qed.

Lemma insert_row_sorted (i : nat) (r : row) (l : list row) :
  Sorted cell_le (map (get i) l) -> Sorted cell_le (map (get i) (insert_row i r l)).
Proof.
  induction l as [|r' l IH]; simpl; intros Hs.
  - constructor; constructor.
  - destruct (cell_leb (get i r) (get i r')) eqn:E; simpl.
    + constructor; [assumption | constructor; exact E].
    + inversion Hs as [|? ? Hs' Hhd]; subst.
      constructor; [apply IH; assumption|].
      destruct l as [|r'' l]; simpl.
      * constructor. apply cell_leb_total; assumption.
      * destruct (cell_leb (get i r) (get i r'')); simpl; constructor.
        -- apply cell_leb_total; assumption.
        -- inversion Hhd; assumption.
Qed.

Lemma sort_rows_sorted (i : nat) (l : list row) :
  Sorted cell_le (map (get i) (sort_rows i l)).
Proof.
  induction l as [|r l IH]; simpl; [constructor|].
  apply insert_row_sorted; assumption.
Qed.

Lemma sort_sorted (d res : DataFrame) (by_ : string) :
  sort d by_ = Ok res ->
  exists ids, get_column res by_ = Ok ids /\ Sorted cell_le ids.
Proof.
  unfold sort, get_column. intros H. inv_bind H. injection H as <-. simpl.
  rewrite H0. simpl. eexists; split; [reflexivity|]. apply sort_rows_sorted.
Qed.

(** C9. Whenever [aggregate_num] or [aggregate_count] returns a table, its
    taxid column is in ascending order (a null identifier, if any, first). *)
Theorem aggregate_sorted_by_taxid :
  forall (LMDATA : DataFrame) (o : pyobj) (column fn result_col taxid_col : string)
         (res : DataFrame),
    aggregate_num LMDATA o column fn taxid_col = Ok res \/
    aggregate_count LMDATA o result_col taxid_col = Ok res ->
    exists ids, get_column res "taxid" = Ok ids /\ Sorted cell_le ids.
Proof.
  intros LMDATA o column fn result_col taxid_col res [H|H].
  - unfold aggregate_num in H. do 4 inv_bind H.
    destruct (String.eqb column "taxid"); [discriminate|].
    destruct (lookup fn fn_dict); [|discriminate].
    do 9 inv_bind H. eapply sort_sorted; eassumption.
  - unfold aggregate_count in H. do 12 inv_bind H.
    eapply sort_sorted; eassumption.
Qed.

Lemma aggregate_sorted_by_taxid_witness :
  exists ids,
    get_column
      (mkDF ["taxid"; "value"]
         [[Int 1; Int 10]; [Int 2; Int 5]; [Int 3; Int 5];
          [Int 4; Int 2]; [Int 5; Int 3]; [Int 6; Int 5]]) "taxid" = Ok ids /\
    Sorted cell_le ids.
Proof.
  apply (aggregate_sorted_by_taxid tree (PolarsDataFrame observations)
           "value" "sum" "n" "taxid").
  left. vm_compute. reflexivity.
Defined.

(** ** Cells *)

Lemma zlist_eqb_eq (l m : list Z) : zlist_eqb l m = true <-> l = m.
Proof.
  revert m; induction l as [|x l IH]; intros [|y m]; simpl;
    try (split; [reflexivity + discriminate | reflexivity + discriminate]).
  rewrite andb_true_iff, Z.eqb_eq, IH. split.
  - intros [-> ->]; reflexivity.
  - intros H; injection H; auto.
Qed.

Lemma cell_eqb_eq (a b : cell) : cell_eqb a b = true <-> a = b.
Proof.
  destruct a, b; simpl; try (split; [reflexivity + discriminate | reflexivity + discriminate]).
  - rewrite Z.eqb_eq. split; [intros ->; reflexivity | intros H; injection H; auto].
  - destruct q as [a b], q0 as [c d]; simpl.
    rewrite andb_true_iff, Z.eqb_eq, Pos.eqb_eq. split.
    + intros [-> ->]; reflexivity.
    + intros H; injection H; auto.
  - rewrite String.eqb_eq. split; [intros ->; reflexivity | intros H; injection H; auto].
  - rewrite zlist_eqb_eq. split; [intros ->; reflexivity | intros H; injection H; auto].
Qed.

Lemma cell_eqb_refl (a : cell) : cell_eqb a a = true.
Proof. apply cell_eqb_eq; reflexivity. Qed.

Lemma keys_eqb_eq (a b : list cell) : keys_eqb a b = true <-> a = b.
Proof.
  revert b; induction a as [|x a IH]; intros [|y b]; simpl;
    try (split; [reflexivity + discriminate | reflexivity + discriminate]).
  rewrite andb_true_iff, cell_eqb_eq, IH. split.
  - intros [-> ->]; reflexivity.
  - intros H; injection H; auto.
Qed.

(** ** Rows and schemas *)

Lemma replace_nth_get (i : nat) (r : row) : replace_nth i (get i r) r = r.
Proof.
  revert i; induction r as [|c r IH]; intros [|i]; simpl; try reflexivity.
  unfold get in IH. now rewrite IH.
Qed.

Lemma get_app_last (r : row) (c : cell) : get (List.length r) (r ++ [c]) = c.
Proof.
  unfold get. rewrite app_nth2 by lia. now rewrite Nat.sub_diag.
Qed.

Lemma replace_nth_last (r : row) (c x : cell) :
  replace_nth (List.length r) x (r ++ [c]) = (r ++ [x])%list.
Proof. induction r as [|y r IH]; simpl; [reflexivity | now rewrite IH]. Qed.

Lemma index_of_app_new (name : string) (cols : list string) :
  mem name cols = false -> index_of name (cols ++ [name]) = Some (List.length cols).
Proof.
  induction cols as [|c cs IH]; simpl; intros H.
  - now rewrite String.eqb_refl.
  - apply orb_false_iff in H. destruct H as [H1 H2]. rewrite H1.
    now rewrite (IH H2).
Qed.

Lemma mem_app (name : string) (a b : list string) :
  mem name (a ++ b) = mem name a || mem name b.
Proof. unfold mem. apply existsb_app. Qed.

Lemma first_duplicate_app_new (cols : list string) (name : string) :
  first_duplicate cols = None -> mem name cols = false ->
  first_duplicate (cols ++ [name]) = None.
Proof.
  induction cols as [|c cs IH]; simpl; intros H1 H2; [reflexivity|].
  apply orb_false_iff in H2. destruct H2 as [H2 H3].
  rewrite mem_app. destruct (mem c cs); [discriminate|]. simpl.
  rewrite String.eqb_sym, H2. simpl. now apply IH.
Qed.

Lemma names_eqb_refl (a : list string) : names_eqb a a = true.
Proof. induction a as [|x a IH]; simpl; [reflexivity|]. now rewrite String.eqb_refl. Qed.

Lemma filter_map_comm {A B : Type} (f : A -> B) (p : B -> bool) (l : list A) :
  filter p (map f l) = map f (filter (fun x => p (f x)) l).
Proof.
  induction l as [|x l IH]; simpl; [reflexivity|].
  destruct (p (f x)); simpl; now rewrite IH.
Qed.

(** ** The cast of a well-typed identifier column changes nothing *)

Lemma cast_id32 (c : cell) : is_id32 c = true -> cast_cell_int32 c = Ok c.
Proof.
  destruct c; simpl; try discriminate; [reflexivity|].
  unfold int32_of. now intros ->.
Qed.

Lemma ensure_int32_id (d : DataFrame) (taxid_col : string) :
  column_holds is_id32 d taxid_col -> ensure_int32 d taxid_col = Ok d.
Proof.
  intros (i & Hi & Hrows). unfold ensure_int32, with_columns. simpl.
  unfold find_column. rewrite Hi. simpl.
  rewrite (mapM_ext_ok _ (fun r => r)).
  - simpl. rewrite map_id. unfold upsert_name.
    assert (Hm : mem taxid_col (columns d) = true) by (apply mem_index_of; eauto).
    rewrite Hm. now destruct d.
  - intros r Hr. unfold eval_row. simpl.
    rewrite (cast_id32 _ (Hrows r Hr)). simpl.
    unfold upsert_cell. rewrite Hi. now rewrite replace_nth_get.
Qed.

(** ** The expansion: left join, explode, self rows *)

Section Expansion.

Variable m : mapping.
Variable cols : list string.
Variable i0 : nat.
Hypothesis taxid_at : index_of "taxid" cols = Some i0.
Hypothesis ascend_fresh : mem "pylifemap_ascend" cols = false.
Hypothesis cols_unique : first_duplicate cols = None.

Lemma join_left_mapping (rs : list row) :
  join_left (mkDF cols rs) (mapping_frame m) "taxid" =
  Ok (mkDF (cols ++ ["pylifemap_ascend"])
        (flat_map (fun r => map (fun c => r ++ [c]) (joined m (get i0 r))) rs)).
Proof.
  unfold join_left, find_column. cbn [columns rows mapping_frame].
  rewrite taxid_at. cbn [index_of String.eqb Ascii.eqb Bool.eqb bind remove_nth map].
  rewrite ascend_fresh. unfold check_unique.
  rewrite (first_duplicate_app_new _ _ cols_unique ascend_fresh).
  cbn [bind]. f_equal. f_equal. apply flat_map_ext. intros r.
  rewrite filter_map_comm. unfold joined.
  change (fun x : Z * list Z =>
            key_match (get i0 r) (get 0 [Int (fst x); Lst (snd x)]))
    with (fun ka : Z * list Z => key_match (get i0 r) (Int (fst ka))).
  destruct (filter _ m) as [|ka ms]; [reflexivity|].
  cbn [map remove_nth]. f_equal. rewrite !map_map. reflexivity.
Qed.

Lemma joined_shape (k c : cell) :
  In c (joined m k) -> c = Null \/ exists l, c = Lst l.
Proof.
  unfold joined. destruct (filter _ m) as [|ka ms].
  - intros [<-|[]]. now left.
  - intros H. apply in_map_iff in H. destruct H as (x & <- & _). right; eauto.
Qed.

Lemma explode_row_pure (i : nat) (r : row) :
  (get i r = Null \/ exists l, get i r = Lst l) ->
  explode_row i r = Ok (explode_pure i r).
Proof.
  unfold explode_row, explode_pure.
  intros [H|(l & H)]; rewrite H; [reflexivity|].
  destruct l as [|z l]; [reflexivity|].
  unfold explode_cell. now rewrite map_map.
Qed.

Lemma explode_pure_last (r : row) (cs : list cell) :
  List.concat (map (explode_pure (List.length r)) (map (fun c => r ++ [c]) cs)) =
  map (fun a => r ++ [a]) (flat_map explode_cell cs).
Proof.
  induction cs as [|c cs IH]; [reflexivity|].
  cbn [map List.concat flat_map]. rewrite IH, map_app. f_equal.
  unfold explode_pure. rewrite get_app_last.
  apply map_ext. intros a. apply replace_nth_last.
Qed.

Lemma explode_joined (rs : list row) :
  Forall (fun r => List.length r = List.length cols) rs ->
  explode (mkDF (cols ++ ["pylifemap_ascend"])
             (flat_map (fun r => map (fun c => r ++ [c]) (joined m (get i0 r))) rs))
          "pylifemap_ascend" =
  Ok (mkDF (cols ++ ["pylifemap_ascend"]) (expanded_rows m i0 rs)).
Proof.
  intros Hlen. unfold explode, find_column. cbn [columns rows].
  rewrite (index_of_app_new _ _ ascend_fresh). cbn [bind].
  rewrite (mapM_ext_ok _ (explode_pure (List.length cols))).
  - cbn [bind]. f_equal. f_equal. unfold expanded_rows.
    induction Hlen as [|r rs Hr _ IH]; [reflexivity|].
    cbn [flat_map]. rewrite map_app, concat_app. f_equal; [|exact IH].
    rewrite <- Hr. apply explode_pure_last.
  - intros r Hr. apply explode_row_pure.
    apply in_flat_map in Hr. destruct Hr as (r0 & Hr0 & Hr).
    apply in_map_iff in Hr. destruct Hr as (c & <- & Hc).
    rewrite Forall_forall in Hlen. rewrite <- (Hlen r0 Hr0), get_app_last.
    eapply joined_shape; eassumption.
Qed.

Lemma mem_false_index_of (name : string) (l : list string) :
  mem name l = false -> index_of name l = None.
Proof.
  intros H. destruct (index_of name l) as [i|] eqn:E; [|reflexivity].
  assert (mem name l = true) by (apply mem_index_of; eauto). congruence.
Qed.

Lemma self_rows_ok (rs : list row) :
  with_columns (mkDF cols rs) [alias (col "taxid") "pylifemap_ascend"] =
  Ok (mkDF (cols ++ ["pylifemap_ascend"]) (self_rows i0 rs)).
Proof.
  unfold with_columns, find_column. cbn [columns rows compile mapM].
  unfold find_column. rewrite taxid_at. cbn [bind map output_name].
  cbn [check_unique first_duplicate mem existsb].
  rewrite (mapM_ext_ok _ (fun r => r ++ [get i0 r])).
  - cbn [bind fold_left]. unfold upsert_name. now rewrite ascend_fresh.
  - intros r _. unfold eval_row. cbn [mapM bind combine upsert_cells].
    unfold upsert_cell. now rewrite (mem_false_index_of _ _ ascend_fresh).
Qed.

End Expansion.

(** ** Closed forms of [aggregate_num] and [aggregate_count] *)

Lemma eqb_neq_l (a b : string) : a <> b -> String.eqb a b = false.
Proof. apply String.eqb_neq. Qed.

Lemma eqb_neq_r (a b : string) : a <> b -> String.eqb b a = false.
Proof. intros H. apply String.eqb_neq. congruence. Qed.

Lemma select_two (d : DataFrame) (taxid_col column : string) (i j : nat) :
  index_of taxid_col (columns d) = Some i ->
  index_of column (columns d) = Some j ->
  column <> "taxid" ->
  select d [alias (col taxid_col) "taxid"; col column] =
  Ok (mkDF ["taxid"; column] (map (fun r => [get i r; get j r]) (rows d))).
Proof.
  intros Hi Hj Hne. unfold select. cbn [mapM compile]. unfold find_column.
  rewrite Hi, Hj. cbn [bind map output_name].
  unfold check_unique. cbn [first_duplicate mem existsb].
  rewrite (eqb_neq_r _ _ Hne). cbn [orb bind].
  now rewrite (mapM_ext_ok _ (fun r => [get i r; get j r])).
Qed.

Lemma select_one (d : DataFrame) (taxid_col : string) (i : nat) :
  index_of taxid_col (columns d) = Some i ->
  select d [alias (col taxid_col) "taxid"] =
  Ok (mkDF ["taxid"] (map (fun r => [get i r]) (rows d))).
Proof.
  intros Hi. unfold select. cbn [mapM compile]. unfold find_column.
  rewrite Hi. cbn [bind map output_name].
  unfold check_unique. cbn [first_duplicate mem existsb bind].
  now rewrite (mapM_ext_ok _ (fun r => [get i r])).
Qed.

Section ClosedForms.

Variable LMDATA : DataFrame.
Variable m : mapping.
Hypothesis LMDATA_mapping :
  select LMDATA [col "taxid"; col "pylifemap_ascend"] = Ok (mapping_frame m).

Variable o : pyobj.
Variable d : DataFrame.
Hypothesis o_table : ensure_polars o = Ok d.

Variable taxid_col : string.
Variable i : nat.
Hypothesis taxid_index : index_of taxid_col (columns d) = Some i.
Hypothesis taxid_values : forall r, In r (rows d) -> is_id32 (get i r) = true.

Lemma taxid_mem : mem taxid_col (columns d) = true.
Proof. apply mem_index_of; eauto. Qed.

Lemma taxid_holds : column_holds is_id32 d taxid_col.
Proof. exists i; auto. Qed.

Lemma aggregate_num_closed (column fn : string) (agg_fn : reducer) (j : nat) :
  index_of column (columns d) = Some j ->
  column <> "taxid" -> column <> "pylifemap_ascend" ->
  lookup fn fn_dict = Some agg_fn ->
  let rs := map (fun r => [get i r; get j r]) (rows d) in
  aggregate_num LMDATA o column fn taxid_col =
  Ok (mkDF ["taxid"; column]
        (sort_rows 0
           (map (fun kg => fst kg ++ [reduce agg_fn (map (get 1) (snd kg))])
                (groups_of [2%nat] (expanded_rows m 0 rs ++ self_rows 0 rs))))).
Proof.
  intros Hj Hne1 Hne2 Hfn rs. unfold aggregate_num.
  rewrite o_table. cbn [bind]. unfold ensure_column_exists.
  assert (Hm : mem column (columns d) = true) by (apply mem_index_of; eauto).
  rewrite Hm, taxid_mem. cbn [negb bind].
  rewrite (ensure_int32_id _ _ taxid_holds). cbn [bind].
  rewrite (eqb_neq_l _ _ Hne1), Hfn.
  rewrite (select_two _ _ _ _ _ taxid_index Hj Hne1). cbn [bind].
  rewrite LMDATA_mapping. cbn [bind].
  assert (H1 : index_of "taxid" ["taxid"; column] = Some 0%nat) by reflexivity.
  assert (H2 : mem "pylifemap_ascend" ["taxid"; column] = false).
  { unfold mem. cbn [existsb]. now rewrite (eqb_neq_r _ _ Hne2). }
  assert (H3 : first_duplicate ["taxid"; column] = None).
  { cbn [first_duplicate mem existsb]. now rewrite (eqb_neq_r _ _ Hne1). }
  rewrite (join_left_mapping m _ _ H1 H2 H3). cbn [bind].
  rewrite (explode_joined m _ 0%nat H2).
  2:{ apply Forall_forall. intros r Hr. apply in_map_iff in Hr.
      destruct Hr as (r0 & <- & _). reflexivity. }
  cbn [bind]. rewrite (self_rows_ok _ _ H1 H2). cbn [bind].
  cbn [pl_concat bind columns rows]. rewrite names_eqb_refl. cbn [bind].
  unfold group_by. cbn [columns rows mapM]. unfold find_column.
  change (["taxid"; column] ++ ["pylifemap_ascend"])
    with ["taxid"; column; "pylifemap_ascend"].
  assert (H4 : index_of "pylifemap_ascend" ["taxid"; column; "pylifemap_ascend"]
               = Some 2%nat).
  { cbn [index_of]. now rewrite (eqb_neq_r _ _ Hne2). }
  assert (H5 : index_of column ["taxid"; column; "pylifemap_ascend"] = Some 1%nat).
  { cbn [index_of]. now rewrite (eqb_neq_l _ _ Hne1), String.eqb_refl. }
  rewrite H4. cbn [bind]. unfold agg. cbn [gb_columns gb_keys gb_groups].
  unfold find_column. rewrite H5. cbn [bind app].
  unfold check_unique. cbn [first_duplicate mem existsb].
  rewrite (eqb_neq_r _ _ Hne2). cbn [orb bind].
  unfold rename, find_column. cbn [columns rows index_of].
  rewrite String.eqb_refl. cbn [bind map].
  rewrite String.eqb_refl, (eqb_neq_l _ _ Hne2).
  unfold check_unique. cbn [first_duplicate mem existsb].
  rewrite (eqb_neq_r _ _ Hne1). cbn [orb bind].
  unfold sort, find_column. cbn [columns rows index_of String.eqb Ascii.eqb Bool.eqb bind].
  reflexivity.
Qed.

End ClosedForms.

(** ** Groups *)

Lemma dedup_In {A : Type} (eqb : A -> A -> bool)
  (eqb_eq : forall a b, eqb a b = true <-> a = b) (x : A) (l : list A) :
  In x (dedup eqb l) <-> In x l.
Proof.
  induction l as [|k l IH]; simpl; [tauto|].
  rewrite filter_In, IH, negb_true_iff. split.
  - intros [H|[H _]]; auto.
  - intros [H|H]; [now left|].
    destruct (eqb k x) eqn:E; [left; now apply eqb_eq | right; auto].
Qed.

Lemma insert_row_In (i : nat) (x r : row) (l : list row) :
  In x (insert_row i r l) <-> x = r \/ In x l.
Proof.
  induction l as [|r' l IH]; simpl.
  - intuition congruence.
  - destruct (cell_leb (get i r) (get i r')); simpl; rewrite ?IH; intuition congruence.
Qed.

Lemma sort_rows_In (i : nat) (x : row) (l : list row) :
  In x (sort_rows i l) <-> In x l.
Proof.
  induction l as [|r l IH]; simpl; [tauto|].
  rewrite insert_row_In, IH. intuition congruence.
Qed.

(** The rows of a sorted, aggregated table: one per key met in the rows. *)
Lemma aggregated_In (F : list cell * list row -> cell) (n : nat) (all : list row)
  (x : row) :
  In x (sort_rows 0 (map (fun kg => fst kg ++ [F kg]) (groups_of [n] all))) <->
  exists r0, In r0 all /\
    x = key_of [n] r0 ++
        [F (key_of [n] r0,
            filter (fun r => keys_eqb (key_of [n] r) (key_of [n] r0)) all)].
Proof.
  rewrite sort_rows_In. unfold groups_of. rewrite map_map, in_map_iff.
  cbn [fst snd]. split.
  - intros (k & <- & Hk). apply (proj1 (dedup_In _ keys_eqb_eq _ _)) in Hk.
    apply in_map_iff in Hk. destruct Hk as (r0 & <- & Hr0). eauto.
  - intros (r0 & Hr0 & ->). exists (key_of [n] r0). split; [reflexivity|].
    apply (dedup_In _ keys_eqb_eq). now apply in_map.
Qed.

(** The row such a table holds for a key: the aggregate of the group of that
    key, when the group is not empty. *)
Lemma find_group (F : list cell * list row -> cell) (t : cell) (n : nat)
  (all : list row) :
  find (fun r => cell_eqb (get 0 r) t)
       (sort_rows 0 (map (fun kg => fst kg ++ [F kg]) (groups_of [n] all))) =
  match filter (fun r => keys_eqb (key_of [n] r) [t]) all with
  | [] => None
  | g => Some [t; F ([t], g)]
  end.
Proof.
  set (G := filter (fun r => keys_eqb (key_of [n] r) [t]) all).
  destruct (find _ _) as [x|] eqn:E.
  - apply find_some in E. destruct E as [Hx Ht].
    apply aggregated_In in Hx. destruct Hx as (r0 & Hr0 & ->).
    cbn in Ht. apply cell_eqb_eq in Ht.
    assert (Hk : key_of [n] r0 = [t]) by (cbn; now rewrite Ht).
    rewrite Hk. fold G.
    assert (HG : In r0 G).
    { unfold G. apply filter_In. split; [assumption|]. now apply keys_eqb_eq. }
    destruct G; [destruct HG | reflexivity].
  - destruct G as [|r0 G'] eqn:EG; [reflexivity|]. exfalso.
    assert (HG : In r0 G) by (rewrite EG; now left).
    unfold G in HG. apply filter_In in HG. destruct HG as [Hr0 Hk].
    apply keys_eqb_eq in Hk.
    pose proof (find_none _ _ E) as Hnone.
    assert (Hin : In ([t] ++ [F ([t], filter (fun r => keys_eqb (key_of [n] r) [t]) all)])
                     (sort_rows 0 (map (fun kg => fst kg ++ [F kg]) (groups_of [n] all)))).
    { apply aggregated_In. exists r0. split; [assumption|]. now rewrite Hk. }
    apply Hnone in Hin. cbn in Hin. rewrite cell_eqb_refl in Hin. discriminate.
Qed.

(** ** The rows of a group are the rows of the subtree *)

Lemma filter_nodup (t : Z) (a : list Z) :
  NoDup a -> filter (Z.eqb t) a = if existsb (Z.eqb t) a then [t] else [].
Proof.
  induction 1 as [|x a Hx _ IH]; simpl; [reflexivity|].
  destruct (Z.eqb_spec t x) as [->|Hne]; simpl.
  - rewrite IH. destruct (existsb (Z.eqb x) a) eqn:E; [|reflexivity].
    apply existsb_exists in E. destruct E as (y & Hy & Hxy).
    apply Z.eqb_eq in Hxy. subst. contradiction.
  - exact IH.
Qed.

Lemma tree_like_lookup (m : mapping) (z : Z) :
  NoDup (map fst m) ->
  filter (fun ka => fst ka =? z) m = [] \/
  exists a, filter (fun ka => fst ka =? z) m = [(z, a)] /\ In (z, a) m.
Proof.
  induction m as [|[k a] m IH]; simpl; intros Hnd; [now left|].
  inversion Hnd as [|? ? Hk Hnd']; subst.
  destruct (Z.eqb_spec k z) as [->|Hne].
  - right. exists a. split; [|now left]. f_equal.
    destruct (filter (fun ka => fst ka =? z) m) as [|[k' a'] l] eqn:E; [reflexivity|].
    exfalso. apply Hk.
    assert (Hin : In (k', a') (filter (fun ka => fst ka =? z) m))
      by (rewrite E; now left).
    apply filter_In in Hin. destruct Hin as [Hin Hz]. simpl in Hz.
    apply Z.eqb_eq in Hz. subst. change z with (fst (z, a')). now apply in_map.
  - destruct (IH Hnd') as [H|(a' & H & Hin)]; [now left|].
    right. exists a'. split; [assumption | now right].
Qed.

Lemma eq_Permutation {A : Type} (a b : list A) : a = b -> Permutation a b.
Proof. intros ->. apply Permutation_refl. Qed.

Section Subtree.

Variable m : mapping.
Hypothesis m_tree : tree_like m.
Variable t : Z.

Lemma filter_int_map (a : list Z) :
  filter (fun c => cell_eqb c (Int t)) (map Int a) = map Int (filter (fun z => z =? t) a).
Proof. now rewrite filter_map_comm. Qed.

(** Among the expansion of a row and its self row, the key [t] occurs once
    when the row lies in the subtree of [t], and not at all otherwise. *)
Lemma subtree_count (k : cell) :
  filter (fun c => cell_eqb c (Int t)) (ascend m k ++ [k]) =
  if in_subtree m t k then [Int t] else [].
Proof.
  destruct m_tree as [Hkeys Hlists].
  assert (Hnone : forall l : mapping, filter (fun _ => false) l = []).
  { induction l as [|x l IH]; [reflexivity | exact IH]. }
  destruct k as [|z|q|s|l];
    try (unfold ascend, joined; cbn [key_match cell_eqb]; rewrite Hnone; reflexivity).
  unfold ascend, joined, in_subtree, ancestors. cbn [key_match cell_eqb].
  rewrite (filter_ext (fun ka : Z * list Z => z =? fst ka) (fun ka => fst ka =? z))
    by (intros; apply Z.eqb_sym).
  rewrite filter_app. cbn [filter cell_eqb].
  destruct (tree_like_lookup m z Hkeys) as [->|(a & -> & Hin)].
  - cbn. destruct (Z.eqb_spec z t) as [->|]; reflexivity.
  - destruct (Hlists z a Hin) as [Hnd Hself].
    cbn [map flat_map snd]. rewrite !app_nil_r.
    assert (Ha : filter (fun c => cell_eqb c (Int t)) (explode_cell (Lst a)) =
                 map Int (filter (fun y => y =? t) a)).
    { destruct a as [|y a]; [reflexivity|]. unfold explode_cell. apply filter_int_map. }
    rewrite Ha.
    rewrite (filter_ext (fun y => y =? t) (Z.eqb t)) by (intros; apply Z.eqb_sym).
    rewrite (filter_nodup t a Hnd).
    destruct (existsb (Z.eqb t) a) eqn:E.
    + destruct (Z.eqb_spec z t) as [->|]; [|reflexivity].
      exfalso. apply existsb_exists in E. destruct E as (y & Hy & Hty).
      apply Z.eqb_eq in Hty. subst. contradiction.
    + rewrite orb_false_r. destruct (Z.eqb_spec z t) as [->|]; reflexivity.
Qed.

Variable n : nat.
Variable i0 : nat.

Lemma in_group_last (r : row) (a : cell) :
  List.length r = n -> in_group n t (r ++ [a]) = cell_eqb a (Int t).
Proof.
  intros <-. unfold in_group. cbn. rewrite get_app_last. apply andb_true_r.
Qed.

Lemma group_of_row (r : row) :
  List.length r = n ->
  map (@removelast cell)
      (filter (in_group n t) (map (fun a => r ++ [a]) (ascend m (get i0 r) ++ [get i0 r]))) =
  if in_subtree m t (get i0 r) then [r] else [].
Proof.
  intros Hr. rewrite filter_map_comm.
  rewrite (filter_ext _ (fun c => cell_eqb c (Int t)))
    by (intros; now apply in_group_last).
  rewrite subtree_count.
  destruct (in_subtree m t (get i0 r)); [|reflexivity].
  cbn. now rewrite removelast_last.
Qed.

Lemma group_rows (rs : list row) :
  Forall (fun r => List.length r = n) rs ->
  Permutation
    (map (@removelast cell)
         (filter (in_group n t) (expanded_rows m i0 rs ++ self_rows i0 rs)))
    (filter (fun r => in_subtree m t (get i0 r)) rs).
Proof.
  induction 1 as [|r rs Hr _ IH]; [constructor|].
  pose proof (group_of_row r Hr) as Hrow.
  rewrite map_app, filter_app, map_app in Hrow.
  rewrite filter_app, map_app in IH.
  change (expanded_rows m i0 (r :: rs))
    with (map (fun a => r ++ [a]) (ascend m (get i0 r)) ++ expanded_rows m i0 rs).
  change (self_rows i0 (r :: rs))
    with (map (fun a => r ++ [a]) [get i0 r] ++ self_rows i0 rs).
  change (r :: rs) with ([r] ++ rs).
  rewrite !filter_app, !map_app.
  eapply Permutation_trans;
    [| apply Permutation_app; [apply eq_Permutation; exact Hrow | exact IH]].
  rewrite <- !app_assoc. apply Permutation_app_head.
  apply Permutation_app_swap_app.
Qed.

End Subtree.

(** ** The reductions do not depend on the order of the rows *)

Lemma numbers_perm (cs cs' : list cell) :
  Permutation cs cs' -> Permutation (numbers cs) (numbers cs').
Proof. apply Permutation_flat_map. Qed.

Lemma zsum_perm (l l' : list Z) : Permutation l l' -> zsum l = zsum l'.
Proof.
  unfold zsum. induction 1; simpl; lia.
Qed.

Lemma fold_min_spec (x : Z) (l : list Z) :
  In (fold_right Z.min x l) (x :: l) /\
  forall y, In y (x :: l) -> fold_right Z.min x l <= y.
Proof.
  induction l as [|a l [IHin IHle]]; simpl.
  - split; [now left | intros y [<-|[]]; lia].
  - split.
    + destruct (Z.min_spec a (fold_right Z.min x l)) as [[_ ->]|[_ ->]]; [tauto|].
      simpl in IHin. tauto.
    + intros y [<-|[<-|H]].
      * specialize (IHle x (or_introl eq_refl)). lia.
      * lia.
      * specialize (IHle y (or_intror H)). lia.
Qed.

Lemma fold_max_spec (x : Z) (l : list Z) :
  In (fold_right Z.max x l) (x :: l) /\
  forall y, In y (x :: l) -> y <= fold_right Z.max x l.
Proof.
  induction l as [|a l [IHin IHle]]; simpl.
  - split; [now left | intros y [<-|[]]; lia].
  - split.
    + destruct (Z.max_spec a (fold_right Z.max x l)) as [[_ ->]|[_ ->]]; [|tauto].
      simpl in IHin. tauto.
    + intros y [<-|[<-|H]].
      * specialize (IHle x (or_introl eq_refl)). lia.
      * lia.
      * specialize (IHle y (or_intror H)). lia.
Qed.

Lemma fold_min_perm (x y : Z) (l l' : list Z) :
  Permutation (x :: l) (y :: l') -> fold_right Z.min x l = fold_right Z.min y l'.
Proof.
  intros H.
  destruct (fold_min_spec x l) as [H1 H2], (fold_min_spec y l') as [H3 H4].
  apply (Permutation_in _ H) in H1. apply H4 in H1.
  apply (Permutation_in _ (Permutation_sym H)) in H3. apply H2 in H3. lia.
Qed.

Lemma fold_max_perm (x y : Z) (l l' : list Z) :
  Permutation (x :: l) (y :: l') -> fold_right Z.max x l = fold_right Z.max y l'.
Proof.
  intros H.
  destruct (fold_max_spec x l) as [H1 H2], (fold_max_spec y l') as [H3 H4].
  apply (Permutation_in _ H) in H1. apply H4 in H1.
  apply (Permutation_in _ (Permutation_sym H)) in H3. apply H2 in H3. lia.
Qed.

Lemma zinsert_comm (x y : Z) (l : list Z) :
  zinsert x (zinsert y l) = zinsert y (zinsert x l).
Proof.
  induction l as [|a l IH]; simpl.
  - destruct (Z.leb_spec x y), (Z.leb_spec y x); try reflexivity; try lia.
    assert (x = y) by lia. now subst.
  - destruct (Z.leb_spec y a), (Z.leb_spec x a); simpl;
      repeat match goal with
             | |- context [?u <=? ?v] => destruct (Z.leb_spec u v)
             end; try reflexivity; try lia.
    + assert (x = y) by lia. now subst.
    + now rewrite IH.
Qed.

Lemma zsort_perm (l l' : list Z) : Permutation l l' -> zsort l = zsort l'.
Proof.
  unfold zsort. induction 1; simpl.
  - reflexivity.
  - now f_equal.
  - apply zinsert_comm.
  - congruence.
Qed.

Lemma reduce_perm (fn : reducer) (cs cs' : list cell) :
  Permutation cs cs' -> reduce fn cs = reduce fn cs'.
Proof.
  intros H. apply numbers_perm in H. unfold reduce.
  destruct (numbers cs) as [|x l], (numbers cs') as [|y l'].
  - reflexivity.
  - apply Permutation_nil in H. discriminate.
  - apply Permutation_sym, Permutation_nil in H. discriminate.
  - destruct fn.
    + now rewrite (zsum_perm _ _ H).
    + now rewrite (zsum_perm _ _ H), (Permutation_length H).
    + now rewrite (fold_min_perm _ _ _ _ H).
    + now rewrite (fold_max_perm _ _ _ _ H).
    + unfold median_of. now rewrite (zsort_perm _ _ H).
Qed.

Lemma aggregate_count_closed (LMDATA : DataFrame) (m : mapping) (o : pyobj)
  (d : DataFrame) (result_col taxid_col : string) (i : nat) :
  select LMDATA [col "taxid"; col "pylifemap_ascend"] = Ok (mapping_frame m) ->
  ensure_polars o = Ok d ->
  index_of taxid_col (columns d) = Some i ->
  (forall r, In r (rows d) -> is_id32 (get i r) = true) ->
  result_col <> "taxid" -> result_col <> "pylifemap_ascend" ->
  let rs := map (fun r => [get i r]) (rows d) in
  aggregate_count LMDATA o result_col taxid_col =
  Ok (mkDF ["taxid"; result_col]
        (sort_rows 0
           (map (fun kg => fst kg ++ [Int (Z.of_nat (List.length (snd kg)))])
                (groups_of [1%nat] (expanded_rows m 0 rs ++ self_rows 0 rs))))).
Proof.
  intros Hlm Ho Hi Hids Hne1 Hne2 rs. unfold aggregate_count.
  rewrite Ho. cbn [bind]. unfold ensure_column_exists.
  rewrite (taxid_mem d taxid_col i Hi). cbn [negb bind].
  rewrite (ensure_int32_id _ _ (taxid_holds d taxid_col i Hi Hids)). cbn [bind].
  rewrite (select_one _ _ _ Hi). cbn [bind]. rewrite Hlm. cbn [bind].
  assert (H1 : index_of "taxid" ["taxid"] = Some 0%nat) by reflexivity.
  assert (H2 : mem "pylifemap_ascend" ["taxid"] = false) by reflexivity.
  assert (H3 : first_duplicate ["taxid"] = None) by reflexivity.
  rewrite (join_left_mapping m _ _ H1 H2 H3). cbn [bind].
  rewrite (explode_joined m _ 0%nat H2).
  2:{ apply Forall_forall. intros r Hr. apply in_map_iff in Hr.
      destruct Hr as (r0 & <- & _). reflexivity. }
  cbn [bind]. rewrite (self_rows_ok _ _ H1 H2). cbn [bind].
  cbn [pl_concat bind columns rows]. rewrite names_eqb_refl. cbn [bind].
  unfold group_by. cbn [columns rows mapM]. unfold find_column.
  change (["taxid"] ++ ["pylifemap_ascend"]) with ["taxid"; "pylifemap_ascend"].
  assert (H4 : index_of "pylifemap_ascend" ["taxid"; "pylifemap_ascend"] = Some 1%nat)
    by reflexivity.
  rewrite H4. cbn [bind]. unfold len. cbn [gb_columns gb_keys gb_groups app].
  unfold check_unique. cbn [first_duplicate mem existsb].
  rewrite (eqb_neq_r _ _ Hne2). cbn [orb bind].
  unfold rename, find_column. cbn [columns rows index_of].
  rewrite String.eqb_refl. cbn [bind map].
  rewrite String.eqb_refl, (eqb_neq_l _ _ Hne2).
  unfold check_unique. cbn [first_duplicate mem existsb].
  rewrite (eqb_neq_r _ _ Hne1). cbn [orb bind].
  unfold sort, find_column.
  cbn [columns rows index_of String.eqb Ascii.eqb Bool.eqb bind].
  reflexivity.
Qed.

(** ** One row per key *)

Lemma dedup_NoDup {A : Type} (eqb : A -> A -> bool)
  (eqb_eq : forall a b, eqb a b = true <-> a = b) (l : list A) :
  NoDup (dedup eqb l).
Proof.
  induction l as [|k l IH]; simpl; constructor.
  - intros H. apply filter_In in H. destruct H as [_ H].
    assert (E : eqb k k = true) by now apply eqb_eq.
    rewrite E in H. discriminate.
  - now apply NoDup_filter.
Qed.

Lemma insert_row_perm (i : nat) (r : row) (l : list row) :
  Permutation (insert_row i r l) (r :: l).
Proof.
  induction l as [|r' l IH]; simpl; [apply Permutation_refl|].
  destruct (cell_leb (get i r) (get i r')); [apply Permutation_refl|].
  eapply Permutation_trans; [apply perm_skip; exact IH | apply perm_swap].
Qed.

Lemma sort_rows_perm (i : nat) (l : list row) : Permutation (sort_rows i l) l.
Proof.
  induction l as [|r l IH]; simpl; [constructor|].
  eapply Permutation_trans; [apply insert_row_perm | now apply perm_skip].
Qed.

Lemma aggregated_keys_NoDup (F : list cell * list row -> cell) (n : nat)
  (all : list row) :
  NoDup (map (get 0)
           (sort_rows 0 (map (fun kg => fst kg ++ [F kg]) (groups_of [n] all)))).
Proof.
  eapply Permutation_NoDup.
  - apply Permutation_sym, Permutation_map, sort_rows_perm.
  - unfold groups_of. rewrite !map_map. cbn [fst snd].
    apply NoDup_map_NoDup_ForallPairs; [|apply (dedup_NoDup _ keys_eqb_eq)].
    intros k1 k2 H1 H2.
    apply (proj1 (dedup_In _ keys_eqb_eq _ _)) in H1, H2.
    apply in_map_iff in H1, H2.
    destruct H1 as (r1 & <- & _), H2 as (r2 & <- & _).
    cbn. now intros ->.
Qed.

(** ** The aggregate of a node is the aggregate of its subtree *)

Lemma expansion_shape (m : mapping) (i0 : nat) (rs : list row) (r : row) :
  In r (expanded_rows m i0 rs ++ self_rows i0 rs) ->
  exists r' a, In r' rs /\ r = r' ++ [a].
Proof.
  intros H. apply in_app_or in H. destruct H as [H|H].
  - apply in_flat_map in H. destruct H as (r' & Hr' & H).
    apply in_map_iff in H. destruct H as (a & <- & _). eauto.
  - apply in_map_iff in H. destruct H as (r' & <- & Hr'). eauto.
Qed.

Lemma group_of_subtree (m : mapping) (t : Z) (i n : nat) (f : row -> row)
  (rs : list row) :
  tree_like m ->
  (forall r, List.length (f r) = n) ->
  (forall r, get 0 (f r) = get i r) ->
  Permutation
    (map (@removelast cell)
         (filter (in_group n t)
                 (expanded_rows m 0 (map f rs) ++ self_rows 0 (map f rs))))
    (map f (filter (fun r => in_subtree m t (get i r)) rs)).
Proof.
  intros Hm Hlen Hkey.
  eapply Permutation_trans.
  - apply (group_rows m Hm t n 0).
    apply Forall_forall. intros r Hr. apply in_map_iff in Hr.
    destruct Hr as (r0 & <- & _). apply Hlen.
  - apply eq_Permutation. rewrite filter_map_comm. f_equal.
    apply filter_ext. intros r. now rewrite Hkey.
Qed.

Lemma tree_map_tree_like : tree_like tree_map.
Proof.
  split.
  - simpl. repeat (constructor; [simpl; intuition discriminate|]). constructor.
  - intros k a Hin. simpl in Hin.
    repeat (destruct Hin as [Hin|Hin]; [injection Hin as <- <-|]); try contradiction;
      (split; [repeat (constructor; [simpl; intuition discriminate|]); constructor
              | simpl; intuition discriminate]).
Qed.



(** ** Rows without ancestors *)

Lemma filter_false {A : Type} (l : list A) : filter (fun _ => false) l = [].
Proof. induction l as [|x l IH]; [reflexivity | exact IH]. Qed.

Lemma no_ancestors_null (m : mapping) (k : cell) :
  no_ancestors m k -> In Null (ascend m k).
Proof.
  destruct k as [|z|q|s|l];
    try (intros _; unfold ascend, joined; cbn [key_match cell_eqb];
         rewrite filter_false; now left).
  unfold no_ancestors, ancestors, ascend, joined. cbn [key_match cell_eqb].
  rewrite (filter_ext (fun ka : Z * list Z => z =? fst ka) (fun ka => fst ka =? z))
    by (intros; apply Z.eqb_sym).
  destruct (filter (fun ka => fst ka =? z) m) as [|[k a] ms]; [intros _; now left|].
  cbn [flat_map map snd]. intros H. apply app_eq_nil in H. destruct H as [-> _].
  now left.
Qed.

Lemma null_row_aggregated (m : mapping) (F : list cell * list row -> cell)
  (n i : nat) (f : row -> row) (rs : list row) (r : row) :
  (forall r, List.length (f r) = n) ->
  (forall r, get 0 (f r) = get i r) ->
  In r rs -> no_ancestors m (get i r) ->
  In Null
     (map (get 0)
        (sort_rows 0
           (map (fun kg => fst kg ++ [F kg])
                (groups_of [n] (expanded_rows m 0 (map f rs) ++ self_rows 0 (map f rs)))))).
Proof.
  intros Hlen Hkey Hr Hno. apply in_map_iff.
  assert (Hin : In (f r ++ [Null])
                   (expanded_rows m 0 (map f rs) ++ self_rows 0 (map f rs))).
  { apply in_or_app. left. apply in_flat_map. exists (f r). split; [now apply in_map|].
    apply in_map_iff. exists Null. split; [reflexivity|].
    rewrite Hkey. now apply no_ancestors_null. }
  assert (Hk : key_of [n] (f r ++ [Null]) = [Null]).
  { cbn. rewrite <- (Hlen r). now rewrite get_app_last. }
  eexists. split; [|apply aggregated_In; exists (f r ++ [Null]); split;
                    [exact Hin | reflexivity]].
  now rewrite Hk.
Qed.

(** C7 (amended). A row whose taxid has no ancestors in the mapping (a null,
    the root, a taxid the mapping does not list) is expanded into one row
    with a null ancestor, and the null ancestors form a group: whenever the
    input has such a row, the result of [aggregate_num] and of
    [aggregate_count] has a row for the null taxid. *)
Theorem rows_without_ancestors_make_a_null_row :
  forall (LMDATA : DataFrame) (m : mapping) (o : pyobj) (d : DataFrame)
         (taxid_col : string) (i : nat) (r : row),
    select LMDATA [col "taxid"; col "pylifemap_ascend"] = Ok (mapping_frame m) ->
    ensure_polars o = Ok d ->
    index_of taxid_col (columns d) = Some i ->
    (forall r, In r (rows d) -> is_id32 (get i r) = true) ->
    In r (rows d) ->
    no_ancestors m (get i r) ->
    (forall (column fn : string) (agg_fn : reducer) (j : nat),
        index_of column (columns d) = Some j ->
        column <> "taxid" -> column <> "pylifemap_ascend" ->
        lookup fn fn_dict = Some agg_fn ->
        exists res ids,
          aggregate_num LMDATA o column fn taxid_col = Ok res /\
          get_column res "taxid" = Ok ids /\ In Null ids) /\
    (forall result_col : string,
        result_col <> "taxid" -> result_col <> "pylifemap_ascend" ->
        exists res ids,
          aggregate_count LMDATA o result_col taxid_col = Ok res /\
          get_column res "taxid" = Ok ids /\ In Null ids).
Proof.
  intros LMDATA m o d taxid_col i r Hlm Ho Hi Hids Hr Hno. split.
  - intros column fn agg_fn j Hj Hne1 Hne2 Hfn.
    rewrite (aggregate_num_closed LMDATA m Hlm o d Ho taxid_col i Hi Hids
               column fn agg_fn j Hj Hne1 Hne2 Hfn).
    eexists. eexists. split; [reflexivity|]. split; [reflexivity|].
    cbn [rows].
    apply (null_row_aggregated m _ 2 i (fun r => [get i r; get j r]) (rows d) r);
      auto.
  - intros result_col Hne1 Hne2.
    rewrite (aggregate_count_closed LMDATA m o d result_col taxid_col i
               Hlm Ho Hi Hids Hne1 Hne2).
    eexists. eexists. split; [reflexivity|]. split; [reflexivity|].
    cbn [rows].
    apply (null_row_aggregated m _ 1 i (fun r => [get i r]) (rows d) r); auto.
Qed.

Lemma rows_without_ancestors_make_a_null_row_witness :
  exists res ids,
    aggregate_count tree (PolarsDataFrame root_only) "n" "taxid" = Ok res /\
    get_column res "taxid" = Ok ids /\ In Null ids.
Proof.
  refine (proj2 (rows_without_ancestors_make_a_null_row tree tree_map
                   (PolarsDataFrame root_only) root_only "taxid" 0 [Int 1; Int 7]
                   eq_refl eq_refl eq_refl _ _ _) "n" _ _).
  - intros r [<-|[]]. reflexivity.
  - now left.
  - reflexivity.
  - discriminate.
  - discriminate.
Defined.

(** C7, as stated, fails: the root has no ancestors, and the result of
    [aggregate_count] and of [aggregate_num] on an observation of the root
    has a row whose taxid is null. *)
Lemma null_taxid_row_counterexample :
  aggregate_count tree (PolarsDataFrame root_only) "n" "taxid" =
    Ok (mkDF ["taxid"; "n"] [[Null; Int 1]; [Int 1; Int 1]]) /\
  aggregate_num tree (PolarsDataFrame root_only) "value" "sum" "taxid" =
    Ok (mkDF ["taxid"; "value"] [[Null; Int 7]; [Int 1; Int 7]]) /\
  ~ (forall res ids,
        aggregate_count tree (PolarsDataFrame root_only) "n" "taxid" = Ok res ->
        get_column res "taxid" = Ok ids -> ~ In Null ids).
Proof.
  split; [reflexivity|]. split; [reflexivity|].
  intros H. apply (H _ _ eq_refl eq_refl). now left.
Qed.

(** ** The strict cast *)

Lemma mapM_ext {A B : Type} (f g : A -> result B) (l : list A) :
  (forall x, f x = g x) -> mapM f l = mapM g l.
Proof.
  intros H. induction l as [|x l IH]; simpl; [reflexivity|]. now rewrite H, IH.
Qed.

Lemma mapM_cases {A B : Type} (f : A -> result B) (l : list A) (e0 : error) :
  (forall x e, In x l -> f x = Raise e -> e = e0) ->
  (exists ys, mapM f l = Ok ys /\ forall x, In x l -> exists y, f x = Ok y) \/
  (mapM f l = Raise e0 /\ exists x, In x l /\ f x = Raise e0).
Proof.
  induction l as [|x l IH]; simpl; intros H.
  - left. eexists. split; [reflexivity | intros x []].
  - destruct (f x) as [y|e] eqn:E; simpl.
    + destruct IH as [(ys & -> & Hall)|(-> & x' & Hx' & Hf)].
      * intros x' e Hx'. apply H. now right.
      * left. eexists. split; [reflexivity|].
        intros x' [<-|Hx']; [eauto | now apply Hall].
      * right. split; [reflexivity|]. exists x'. split; [now right | assumption].
    + assert (e = e0) by (apply (H x); [now left | assumption]). subst.
      right. split; [reflexivity|]. exists x. split; [now left | assumption].
Qed.

Lemma cast_error (c : cell) (e : error) :
  cast_cell_int32 c = Raise e -> e = cast_failed.
Proof.
  unfold cast_cell_int32, int32_of.
  destruct c as [|z|q|s|l]; try discriminate.
  - destruct (fits_int32 z); [discriminate | congruence].
  - destruct (fits_int32 _); [discriminate | congruence].
  - destruct (NilZero.int_of_string s); [|congruence].
    destruct (fits_int32 _); [discriminate | congruence].
  - congruence.
Qed.

Lemma ensure_int32_unfold (d : DataFrame) (taxid_col : string) (i : nat) :
  index_of taxid_col (columns d) = Some i ->
  ensure_int32 d taxid_col =
  (rs <- mapM (fun r => x <- cast_cell_int32 (get i r) ;; Ok (replace_nth i x r))
              (rows d) ;;
   Ok (mkDF (columns d) rs)).
Proof.
  intros Hi. unfold ensure_int32, with_columns. cbn [mapM compile].
  unfold find_column. rewrite Hi. cbn [bind map output_name].
  cbn [check_unique first_duplicate mem existsb bind fold_left].
  unfold upsert_name. rewrite (taxid_mem d taxid_col i Hi).
  f_equal. apply mapM_ext. intros r. unfold eval_row. cbn [mapM bind].
  destruct (cast_cell_int32 (get i r)) as [x|e]; [|reflexivity].
  cbn [bind combine upsert_cells]. unfold upsert_cell. now rewrite Hi.
Qed.

Lemma ensure_int32_cases (d : DataFrame) (taxid_col : string) (i : nat) :
  index_of taxid_col (columns d) = Some i ->
  (exists d', ensure_int32 d taxid_col = Ok d' /\
              forall r, In r (rows d) -> exists x, cast_cell_int32 (get i r) = Ok x) \/
  (ensure_int32 d taxid_col = Raise cast_failed /\
   exists r, In r (rows d) /\ cast_cell_int32 (get i r) = Raise cast_failed).
Proof.
  intros Hi. rewrite (ensure_int32_unfold d taxid_col i Hi).
  destruct (mapM_cases
              (fun r => x <- cast_cell_int32 (get i r) ;; Ok (replace_nth i x r))
              (rows d) cast_failed) as [(rs & -> & Hall)|(-> & r & Hr & Hf)].
  - intros r e _ H. destruct (cast_cell_int32 (get i r)) eqn:E; [discriminate|].
    injection H as <-. now apply (cast_error (get i r)).
  - left. eexists. split; [reflexivity|]. intros r Hr.
    destruct (Hall r Hr) as (y & Hy).
    destruct (cast_cell_int32 (get i r)); [eauto | discriminate].
  - right. split; [reflexivity|]. exists r. split; [assumption|].
    destruct (cast_cell_int32 (get i r)) as [x|e] eqn:E; [discriminate|].
    now rewrite (cast_error _ _ E).
Qed.

Lemma ensure_int32_raises (d : DataFrame) (taxid_col : string) (i : nat)
  (r : row) (z : Z) :
  index_of taxid_col (columns d) = Some i ->
  In r (rows d) -> get i r = Int z -> fits_int32 z = false ->
  ensure_int32 d taxid_col = Raise cast_failed.
Proof.
  intros Hi Hr Hz Hfit.
  destruct (ensure_int32_cases d taxid_col i Hi) as [(d' & _ & Hall)|[H _]];
    [|assumption].
  destruct (Hall r Hr) as (x & Hx). rewrite Hz in Hx. cbn in Hx.
  unfold int32_of in Hx. rewrite Hfit in Hx. discriminate.
Qed.

(** C8 (amended). The cast of [ensure_int32] is strict: when the identifier
    column holds an integer that does not fit in 32 bits, [ensure_int32]
    raises instead of truncating, and so does every entry point. *)
Theorem ensure_int32_is_strict :
  forall (LMDATA : DataFrame) (o : pyobj) (d : DataFrame) (taxid_col : string)
         (i : nat) (r : row) (z : Z),
    ensure_polars o = Ok d ->
    index_of taxid_col (columns d) = Some i ->
    In r (rows d) -> get i r = Int z -> fits_int32 z = false ->
    ensure_int32 d taxid_col = Raise cast_failed /\
    (forall column fn : string,
        mem column (columns d) = true ->
        aggregate_num LMDATA o column fn taxid_col = Raise cast_failed) /\
    (forall result_col : string,
        aggregate_count LMDATA o result_col taxid_col = Raise cast_failed) /\
    (forall (column : string) (keep_leaves : bool),
        aggregate_cat LMDATA o column keep_leaves taxid_col = Raise cast_failed).
Proof.
  intros LMDATA o d taxid_col i r z Ho Hi Hr Hz Hfit.
  pose proof (ensure_int32_raises d taxid_col i r z Hi Hr Hz Hfit) as Hraise.
  pose proof (taxid_mem d taxid_col i Hi) as Hmem.
  split; [assumption|]. split; [|split].
  - intros column fn Hc. unfold aggregate_num. rewrite Ho. cbn [bind].
    unfold ensure_column_exists. rewrite Hc, Hmem. cbn [negb bind].
    now rewrite Hraise.
  - intros result_col. unfold aggregate_count. rewrite Ho. cbn [bind].
    unfold ensure_column_exists. rewrite Hmem. cbn [negb bind].
    now rewrite Hraise.
  - intros column keep_leaves. unfold aggregate_cat. rewrite Ho. cbn [bind].
    now rewrite Hraise.
Qed.

Lemma ensure_int32_is_strict_witness :
  ensure_int32 too_wide "taxid" = Raise cast_failed /\
  (forall column fn : string,
      mem column (columns too_wide) = true ->
      aggregate_num tree (PolarsDataFrame too_wide) column fn "taxid" =
      Raise cast_failed) /\
  (forall result_col : string,
      aggregate_count tree (PolarsDataFrame too_wide) result_col "taxid" =
      Raise cast_failed) /\
  (forall (column : string) (keep_leaves : bool),
      aggregate_cat tree (PolarsDataFrame too_wide) column keep_leaves "taxid" =
      Raise cast_failed).
Proof.
  apply (ensure_int32_is_strict tree (PolarsDataFrame too_wide) too_wide "taxid"
           0 [Int 2147483648; Int 1] 2147483648).
  - reflexivity.
  - reflexivity.
  - now left.
  - reflexivity.
  - reflexivity.
Defined.

(** C8, as stated, fails: 2147483648 does not fit in 32 bits, and
    [ensure_int32] raises on it; no table comes back, truncated or not. *)
Lemma ensure_int32_counterexample :
  ensure_int32 too_wide "taxid" =
    Raise (InvalidOperationError "conversion to i32 failed") /\
  ~ (exists d', ensure_int32 too_wide "taxid" = Ok d').
Proof.
  split; [reflexivity|]. intros (d' & H). discriminate.
Qed.

(** ** The checks of [aggregate_num] *)

Lemma lookup_fn_dict_none (fn : string) :
  ~ In fn ["sum"; "mean"; "min"; "max"; "median"] -> lookup fn fn_dict = None.
Proof.
  intros H. unfold fn_dict. cbn [lookup].
  repeat match goal with
         | |- context [String.eqb fn ?s] =>
             destruct (String.eqb_spec fn s) as [->|_];
             [exfalso; apply H; simpl; tauto|]
         end.
  reflexivity.
Qed.

(** C6 (amended). When the cast of the identifier column does not fail,
    [aggregate_num] raises a ValueError whenever the target column is named
    taxid, and whenever [fn] is none of sum, mean, min, max, median; in the
    latter case, if both columns exist and the target column is not named
    taxid, the message lists the allowed names. *)
Theorem aggregate_num_value_errors :
  forall (LMDATA : DataFrame) (o : pyobj) (d : DataFrame)
         (column fn taxid_col : string),
    ensure_polars o = Ok d ->
    ensure_int32 d taxid_col <> Raise cast_failed ->
    (column = "taxid" ->
     exists msg, aggregate_num LMDATA o column fn taxid_col = Raise (ValueError msg)) /\
    (~ In fn ["sum"; "mean"; "min"; "max"; "median"] ->
     exists msg, aggregate_num LMDATA o column fn taxid_col = Raise (ValueError msg)) /\
    (~ In fn ["sum"; "mean"; "min"; "max"; "median"] ->
     mem column (columns d) = true -> mem taxid_col (columns d) = true ->
     column <> "taxid" ->
     aggregate_num LMDATA o column fn taxid_col =
     Raise (ValueError
       "fn value must be one of dict_keys(['sum', 'mean', 'min', 'max', 'median']).")).
Proof.
  intros LMDATA o d column fn taxid_col Ho Hcast.
  assert (Hstep : forall k : DataFrame -> result DataFrame,
             (forall d', exists msg, k d' = Raise (ValueError msg)) ->
             exists msg,
               (ensure_column_exists d column ;;;
                ensure_column_exists d taxid_col ;;;
                d' <- ensure_int32 d taxid_col ;; k d') = Raise (ValueError msg)).
  { intros k Hk. unfold ensure_column_exists.
    destruct (mem column (columns d)); cbn [negb bind]; [|eauto].
    destruct (mem taxid_col (columns d)) eqn:Hm; cbn [negb bind]; [|eauto].
    apply mem_index_of in Hm. destruct Hm as (i & Hi).
    destruct (ensure_int32_cases d taxid_col i Hi) as [(d' & -> & _)|[H _]];
      [apply Hk | contradiction]. }
  unfold aggregate_num. rewrite Ho. cbn [bind]. split; [|split].
  - intros ->. apply Hstep. intros d'. cbn. eauto.
  - intros Hfn. apply Hstep. intros d'.
    destruct (String.eqb column "taxid"); [eauto|].
    rewrite (lookup_fn_dict_none fn Hfn). eauto.
  - intros Hfn Hc Ht Hne. unfold ensure_column_exists.
    rewrite Hc, Ht. cbn [negb bind].
    apply mem_index_of in Ht. destruct Ht as (i & Hi).
    destruct (ensure_int32_cases d taxid_col i Hi) as [(d' & -> & _)|[H _]];
      [|contradiction].
    cbn [bind]. rewrite (eqb_neq_l _ _ Hne), (lookup_fn_dict_none fn Hfn).
    reflexivity.
Qed.

Lemma aggregate_num_value_errors_witness :
  (exists msg,
      aggregate_num tree (PolarsDataFrame observations) "taxid" "sum" "taxid" =
      Raise (ValueError msg)) /\
  aggregate_num tree (PolarsDataFrame observations) "value" "bogus" "taxid" =
    Raise (ValueError
      "fn value must be one of dict_keys(['sum', 'mean', 'min', 'max', 'median']).").
Proof.
  assert (Hcast : ensure_int32 observations "taxid" <> Raise cast_failed)
    by (vm_compute; discriminate).
  split.
  - apply (proj1 (aggregate_num_value_errors tree (PolarsDataFrame observations)
                    observations "taxid" "sum" "taxid" eq_refl Hcast)).
    reflexivity.
  - apply (proj2 (proj2 (aggregate_num_value_errors tree
                           (PolarsDataFrame observations) observations
                           "value" "bogus" "taxid" eq_refl Hcast))).
    + simpl. intuition discriminate.
    + reflexivity.
    + reflexivity.
    + discriminate.
Defined.

(** C6, as stated, fails: the cast of the identifier column comes before
    the check of the target column, and a table whose identifier does not
    fit in 32 bits makes the call raise the cast error, not a ValueError. *)
Lemma aggregate_num_value_error_counterexample :
  aggregate_num tree (PolarsDataFrame too_wide) "taxid" "sum" "taxid" =
    Raise (InvalidOperationError "conversion to i32 failed") /\
  ~ (exists msg,
        aggregate_num tree (PolarsDataFrame too_wide) "taxid" "sum" "taxid" =
        Raise (ValueError msg)).
Proof.
  split; [reflexivity|]. intros (msg & H). discriminate.
Qed.

(** ** Missing columns *)

(** X12. What [aggregate_num] and [aggregate_count] do on a missing column:
    the ValueError of [ensure_column_exists], which names the column. *)
Lemma missing_column_value_error (LMDATA : DataFrame) (o : pyobj) (d : DataFrame)
  (column fn result_col taxid_col : string) :
  ensure_polars o = Ok d ->
  (mem column (columns d) = false ->
   aggregate_num LMDATA o column fn taxid_col =
   Raise (ValueError (column ++ " is not a column of the DataFrame.")%string)) /\
  (mem column (columns d) = true -> mem taxid_col (columns d) = false ->
   aggregate_num LMDATA o column fn taxid_col =
   Raise (ValueError (taxid_col ++ " is not a column of the DataFrame.")%string)) /\
  (mem taxid_col (columns d) = false ->
   aggregate_count LMDATA o result_col taxid_col =
   Raise (ValueError (taxid_col ++ " is not a column of the DataFrame.")%string)).
Proof.
  intros Ho. unfold aggregate_num, aggregate_count, ensure_column_exists.
  rewrite Ho. cbn [bind]. repeat split.
  - now intros ->.
  - now intros -> ->.
  - now intros ->.
Qed.

(** C5. [aggregate_cat] does not call [ensure_column_exists]: on a table
    without the identifier column it is the engine that raises, with its
    ColumnNotFoundError, from the cast of [ensure_int32]; on a table without
    the categorical column the engine raises the same kind of error from the
    first projection.  No ValueError is raised. *)
Theorem aggregate_cat_missing_column :
  forall (LMDATA : DataFrame) (o : pyobj) (d : DataFrame) (column : string)
         (keep_leaves : bool) (taxid_col : string),
    ensure_polars o = Ok d ->
    (mem taxid_col (columns d) = false ->
     aggregate_cat LMDATA o column keep_leaves taxid_col =
     Raise (ColumnNotFoundError taxid_col)) /\
    (mem taxid_col (columns d) = true ->
     ensure_int32 d taxid_col <> Raise cast_failed ->
     mem column (columns d) = false ->
     aggregate_cat LMDATA o column keep_leaves taxid_col =
     Raise (ColumnNotFoundError column)).
Proof.
  intros LMDATA o d column keep_leaves taxid_col Ho.
  unfold aggregate_cat. rewrite Ho. cbn [bind]. split.
  - intros Hmem. unfold ensure_int32, with_columns. cbn [mapM compile].
    unfold find_column. now rewrite (mem_false_index_of _ _ Hmem).
  - intros Hmem Hcast Hcol. apply mem_index_of in Hmem. destruct Hmem as (i & Hi).
    destruct (ensure_int32_cases d taxid_col i Hi) as [(d' & Hd' & _)|[H _]];
      [|contradiction].
    rewrite Hd'. cbn [bind].
    rewrite (ensure_int32_unfold d taxid_col i Hi) in Hd'.
    inv_bind Hd'. injection Hd' as <-.
    unfold select. cbn [mapM compile columns]. unfold find_column.
    rewrite Hi, (mem_false_index_of _ _ Hcol). reflexivity.
Qed.

Lemma aggregate_cat_missing_column_witness :
  aggregate_cat tree (PolarsDataFrame categories_by_id) "cat" false "taxid" =
    Raise (ColumnNotFoundError "taxid") /\
  aggregate_cat tree (PolarsDataFrame categories_by_id) "category" false "id" =
    Raise (ColumnNotFoundError "category").
Proof.
  split.
  - apply (proj1 (aggregate_cat_missing_column tree (PolarsDataFrame categories_by_id)
                    categories_by_id "cat" false "taxid" eq_refl)).
    reflexivity.
  - apply (proj2 (aggregate_cat_missing_column tree (PolarsDataFrame categories_by_id)
                    categories_by_id "category" false "id" eq_refl)).
    + reflexivity.
    + vm_compute. discriminate.
    + reflexivity.
Defined.

(** ** The leaves of [aggregate_cat] *)

Lemma select_columns (d d' : DataFrame) (es : list expr) :
  select d es = Ok d' -> columns d' = map output_name es.
Proof.
  unfold select. intros H. do 3 inv_bind H. now injection H as <-.
Qed.

Lemma leaves_select_fails (d : DataFrame) (column taxid_col : string) :
  columns d = ["taxid"; column] ->
  taxid_col <> "taxid" ->
  exists e, select d [col taxid_col; col column] = Raise e /\
            (taxid_col <> column -> e = ColumnNotFoundError taxid_col).
Proof.
  intros Hcols Hne. unfold select. rewrite Hcols. cbn [mapM compile].
  unfold find_column. cbn [index_of].
  destruct (String.eqb_spec taxid_col column) as [<-|Hc].
  - rewrite !(eqb_neq_l _ _ Hne), !String.eqb_refl.
    cbn [option_map bind map output_name].
    unfold check_unique. cbn [first_duplicate mem existsb].
    rewrite String.eqb_refl. cbn [orb bind].
    eexists. split; [reflexivity | congruence].
  - rewrite !(eqb_neq_l _ _ Hne).
    cbn [option_map bind]. eexists. split; [reflexivity | reflexivity].
Qed.




(** ** Which taxids a result holds *)

Lemma self_row_aggregated (m : mapping) (F : list cell * list row -> cell)
  (n i : nat) (f : row -> row) (rs : list row) (r : row) :
  (forall r, List.length (f r) = n) ->
  (forall r, get 0 (f r) = get i r) ->
  In r rs ->
  In (get i r)
     (map (get 0)
        (sort_rows 0
           (map (fun kg => fst kg ++ [F kg])
                (groups_of [n] (expanded_rows m 0 (map f rs) ++ self_rows 0 (map f rs)))))).
Proof.
  intros Hlen Hkey Hr. apply in_map_iff.
  assert (Hin : In (f r ++ [get i r])
                   (expanded_rows m 0 (map f rs) ++ self_rows 0 (map f rs))).
  { apply in_or_app. right. apply in_map_iff. exists (f r).
    split; [now rewrite Hkey | now apply in_map]. }
  assert (Hk : key_of [n] (f r ++ [get i r]) = [get i r]).
  { cbn. rewrite <- (Hlen r). now rewrite get_app_last. }
  eexists. split; [|apply aggregated_In; exists (f r ++ [get i r]); split;
                    [exact Hin | reflexivity]].
  now rewrite Hk.
Qed.

(** X13. [aggregate_num] and [aggregate_count] add every row to the group of
    its own taxid: every taxid of the input is a taxid of the result. *)
Lemma input_taxids_kept (LMDATA : DataFrame) (m : mapping) (o : pyobj)
  (d : DataFrame) (taxid_col : string) (i : nat) (r : row) :
  select LMDATA [col "taxid"; col "pylifemap_ascend"] = Ok (mapping_frame m) ->
  ensure_polars o = Ok d ->
  index_of taxid_col (columns d) = Some i ->
  (forall r, In r (rows d) -> is_id32 (get i r) = true) ->
  In r (rows d) ->
  (forall (column fn : string) (agg_fn : reducer) (j : nat),
      index_of column (columns d) = Some j ->
      column <> "taxid" -> column <> "pylifemap_ascend" ->
      lookup fn fn_dict = Some agg_fn ->
      exists res ids,
        aggregate_num LMDATA o column fn taxid_col = Ok res /\
        get_column res "taxid" = Ok ids /\ In (get i r) ids) /\
  (forall result_col : string,
      result_col <> "taxid" -> result_col <> "pylifemap_ascend" ->
      exists res ids,
        aggregate_count LMDATA o result_col taxid_col = Ok res /\
        get_column res "taxid" = Ok ids /\ In (get i r) ids).
Proof.
  intros Hlm Ho Hi Hids Hr. split.
  - intros column fn agg_fn j Hj Hne1 Hne2 Hfn.
    rewrite (aggregate_num_closed LMDATA m Hlm o d Ho taxid_col i Hi Hids
               column fn agg_fn j Hj Hne1 Hne2 Hfn).
    eexists. eexists. split; [reflexivity|]. split; [reflexivity|].
    cbn [rows].
    apply (self_row_aggregated m _ 2 i (fun r => [get i r; get j r]) (rows d) r);
      auto.
  - intros result_col Hne1 Hne2.
    rewrite (aggregate_count_closed LMDATA m o d result_col taxid_col i
               Hlm Ho Hi Hids Hne1 Hne2).
    eexists. eexists. split; [reflexivity|]. split; [reflexivity|].
    cbn [rows].
    apply (self_row_aggregated m _ 1 i (fun r => [get i r]) (rows d) r); auto.
Qed.



(** ** The leaf rows, when the identifier column is named taxid *)

Lemma names_eqb_eq (a b : list string) : names_eqb a b = true -> a = b.
Proof.
  revert b; induction a as [|x a IH]; intros [|y b]; simpl; try discriminate;
    [reflexivity|].
  intros H. apply andb_true_iff in H. destruct H as [H1 H2].
  apply String.eqb_eq in H1. now rewrite H1, (IH b H2).
Qed.

Lemma select_two_inv (d d2 : DataFrame) (taxid_col column : string) (i : nat) :
  index_of taxid_col (columns d) = Some i ->
  select d [alias (col taxid_col) "taxid"; col column] = Ok d2 ->
  exists j, index_of column (columns d) = Some j /\ column <> "taxid" /\
            d2 = mkDF ["taxid"; column] (map (fun r => [get i r; get j r]) (rows d)).
Proof.
  intros Hi H. destruct (index_of column (columns d)) as [j|] eqn:Hj.
  - destruct (String.eqb_spec column "taxid") as [->|Hne].
    + unfold select in H. cbn [mapM compile] in H. unfold find_column in H.
      rewrite Hi, Hj in H. discriminate.
    + rewrite (select_two d taxid_col column i j Hi Hj Hne) in H.
      injection H as <-. eauto.
  - unfold select in H. cbn [mapM compile] in H. unfold find_column in H.
    rewrite Hi, Hj in H. discriminate.
Qed.

Lemma leaves_ok (column : string) (rs : list row) (f g : row -> cell) :
  column <> "taxid" -> column <> "pylifemap_count_type" ->
  (leaves <- select (mkDF ["taxid"; column] (map (fun r => [f r; g r]) rs))
                    [col "taxid"; col column] ;;
   with_columns leaves [alias (lit (Str "leaf")) "pylifemap_count_type"]) =
  Ok (mkDF ["taxid"; column; "pylifemap_count_type"]
        (map (fun r => [f r; g r; Str "leaf"]) rs)).
Proof.
  intros Hne1 Hne2. unfold select. cbn [mapM compile columns rows].
  unfold find_column. cbn [index_of].
  rewrite (eqb_neq_l _ _ Hne1), !String.eqb_refl.
  cbn [option_map bind map output_name].
  unfold check_unique. cbn [first_duplicate mem existsb].
  rewrite (eqb_neq_r _ _ Hne1). cbn [orb bind].
  rewrite (mapM_ext_ok _ (fun r => r)).
  2:{ intros r Hr. apply in_map_iff in Hr. destruct Hr as (r0 & <- & _). reflexivity. }
  cbn [bind]. rewrite map_id.
  unfold with_columns. cbn [mapM compile columns rows bind map output_name].
  cbn [check_unique first_duplicate mem existsb bind].
  rewrite (mapM_ext_ok _ (fun r => r ++ [Str "leaf"])).
  - cbn [bind fold_left]. unfold upsert_name, mem. cbn [existsb].
    rewrite (eqb_neq_r _ _ Hne2). cbn [orb app]. now rewrite map_map.
  - intros r _. unfold eval_row. cbn [mapM bind combine upsert_cells].
    unfold upsert_cell. cbn [index_of]. now rewrite (eqb_neq_r _ _ Hne2).
Qed.

(** X14. With the identifier column named taxid, the table returned with
    [keep_leaves] is the table returned without it, followed by one row per
    input row: its taxid, its category, and the marker leaf. *)
Lemma leaves_appended (LMDATA : DataFrame) (o : pyobj) (d res : DataFrame)
  (column : string) (i j : nat) :
  ensure_polars o = Ok d ->
  index_of "taxid" (columns d) = Some i ->
  (forall r, In r (rows d) -> is_id32 (get i r) = true) ->
  index_of column (columns d) = Some j ->
  column <> "pylifemap_count_type" ->
  aggregate_cat LMDATA o column true "taxid" = Ok res ->
  exists counts,
    aggregate_cat LMDATA o column false "taxid" = Ok counts /\
    columns res = ["taxid"; column; "pylifemap_count_type"] /\
    rows res = rows counts ++ map (fun r => [get i r; get j r; Str "leaf"]) (rows d).
Proof.
  intros Ho Hi Hids Hj Hne2 H. unfold aggregate_cat in *. cbv zeta in *.
  rewrite Ho in *. cbn [bind] in *.
  rewrite (ensure_int32_id d "taxid" (taxid_holds d "taxid" i Hi Hids)) in *.
  cbn [bind] in *.
  destruct (select d [alias (col "taxid") "taxid"; col column]) as [d2|e] eqn:Hsel;
    [|discriminate].
  cbn [bind] in *.
  destruct (select_two_inv d d2 "taxid" column i Hi Hsel) as (j' & Hj' & Hne1 & ->).
  assert (j' = j) by congruence. subst j'.
  repeat (match type of H with
          | bind ?c _ = _ =>
              lazymatch c with
              | select _ [col "taxid"; col column] => fail
              | _ => destruct c eqn:?
              end
          end; cbn [bind] in *; [|discriminate]).
  match type of H with
  | bind ?c (fun l => bind (@?f l) ?g) = _ => rewrite <- (bind_assoc c f g) in H
  end.
  rewrite (leaves_ok column (rows d) (get i) (get j) Hne1 Hne2) in H.
  cbn [bind pl_concat columns rows] in H.
  destruct (names_eqb _ _) eqn:Hnames; [|discriminate].
  apply names_eqb_eq in Hnames. injection H as <-.
  eexists. split; [reflexivity|]. cbn [columns rows]. now split.
Qed.

(** C4. With the identifier column named id, the call with [keep_leaves]
    raises instead of returning count rows and leaf rows; with the same
    observations under the name taxid it returns the count rows followed by
    the leaf rows, which are the input rows. *)
Theorem aggregate_cat_leaves_by_identifier_name :
  aggregate_cat tree (PolarsDataFrame categories_by_id) "cat" true "id" =
    Raise (ColumnNotFoundError "id") /\
  aggregate_cat tree (PolarsDataFrame categories) "cat" true "taxid" =
    Ok (mkDF ["taxid"; "cat"; "pylifemap_count_type"]
          [[Int 2; Str (json_encode [("a", Int 1); ("b", Int 1)]); Str "count"];
           [Int 1; Str (json_encode [("a", Int 2); ("b", Int 1)]); Str "count"];
           [Int 3; Str (json_encode [("a", Int 1); ("b", Int 0)]); Str "count"];
           [Int 4; Str "a"; Str "leaf"];
           [Int 5; Str "b"; Str "leaf"];
           [Int 6; Str "a"; Str "leaf"]]).
Proof. split; vm_compute; reflexivity. Qed.

(** * Further properties of the module *)

(** ** [ensure_polars] *)

(** X1. An object that is neither a pandas nor a polars frame is refused with
    the same TypeError by every entry point and by [preprocess_counts],
    before any other argument is looked at. *)
Theorem not_a_frame_is_a_type_error :
  forall (LMDATA : DataFrame) (column fn result_col taxid_col : string)
         (keep_leaves : bool) (levels : list cell),
    let e := TypeError "data must be a pandas or polars DataFrame." in
    aggregate_num LMDATA PyOther column fn taxid_col = Raise e /\
    aggregate_count LMDATA PyOther result_col taxid_col = Raise e /\
    aggregate_cat LMDATA PyOther column keep_leaves taxid_col = Raise e /\
    preprocess_counts PyOther levels result_col = Raise e.
Proof. intros. repeat split. Qed.

(** ** [ensure_int32] *)

Lemma mapM_Forall2 {A B : Type} (f : A -> result B) (l : list A) (l' : list B) :
  mapM f l = Ok l' -> Forall2 (fun x y => f x = Ok y) l l'.
Proof.
  revert l'; induction l as [|x l IH]; simpl; intros l' H.
  - injection H as <-. constructor.
  - do 2 inv_bind H. injection H as <-. constructor; auto.
Qed.

Lemma cast_result_id32 (c x : cell) : cast_cell_int32 c = Ok x -> is_id32 x = true.
Proof.
  assert (Hint : forall z, int32_of z = Ok x -> is_id32 x = true).
  { intros z. unfold int32_of. destruct (fits_int32 z) eqn:E; [|discriminate].
    now intros [= <-]. }
  destruct c as [|z|q|s|l]; simpl; try discriminate.
  - now intros [= <-].
  - apply Hint.
  - apply Hint.
  - destruct (NilZero.int_of_string s); [apply Hint | discriminate].
Qed.

Lemma get_replace_nth_same (i : nat) (x : cell) (r : row) :
  (i < List.length r)%nat -> get i (replace_nth i x r) = x.
Proof.
  revert i; induction r as [|c r IH]; intros [|i]; simpl; intros H; try lia;
    [reflexivity|].
  apply IH. lia.
Qed.

Lemma get_replace_nth_other (i k : nat) (x : cell) (r : row) :
  k <> i -> get k (replace_nth i x r) = get k r.
Proof.
  revert i k; induction r as [|c r IH]; intros [|i] [|k]; simpl; intros H;
    try reflexivity; try congruence.
  apply IH. congruence.
Qed.

Lemma length_replace_nth (i : nat) (x : cell) (r : row) :
  List.length (replace_nth i x r) = List.length r.
Proof.
  revert i; induction r as [|c r IH]; intros [|i]; simpl; try reflexivity.
  now rewrite IH.
Qed.

Lemma get_beyond (i : nat) (r : row) : (List.length r <= i)%nat -> get i r = Null.
Proof. intros H. unfold get. now apply nth_overflow. Qed.

Lemma replace_nth_beyond (i : nat) (x : cell) (r : row) :
  (List.length r <= i)%nat -> replace_nth i x r = r.
Proof.
  revert i; induction r as [|c r IH]; intros [|i]; simpl; intros H;
    try reflexivity; try lia.
  rewrite IH by lia. reflexivity.
Qed.

Lemma Forall2_In_r {A B : Type} (R : A -> B -> Prop) (l : list A) (l' : list B)
  (y : B) :
  Forall2 R l l' -> In y l' -> exists x, In x l /\ R x y.
Proof.
  induction 1 as [|a b l l' Hab _ IH]; intros Hy; [destruct Hy|].
  destruct Hy as [<-|Hy].
  - exists a. split; [now left | assumption].
  - destruct (IH Hy) as (x & Hx & HR). exists x. split; [now right | assumption].
Qed.

Lemma ensure_int32_inv (d d' : DataFrame) (taxid_col : string) :
  ensure_int32 d taxid_col = Ok d' ->
  exists i,
    index_of taxid_col (columns d) = Some i /\
    columns d' = columns d /\
    Forall2 (fun r r' => exists x, cast_cell_int32 (get i r) = Ok x /\
                                   r' = replace_nth i x r)
            (rows d) (rows d').
Proof.
  intros H. destruct (index_of taxid_col (columns d)) as [i|] eqn:Hi.
  - exists i. split; [reflexivity|].
    rewrite (ensure_int32_unfold d taxid_col i Hi) in H. inv_bind H.
    injection H as <-. split; [reflexivity|]. cbn [rows].
    apply mapM_Forall2 in H0.
    eapply Forall2_impl; [|exact H0]. cbn beta. intros r r' Hr.
    destruct (cast_cell_int32 (get i r)) as [y|]; [|discriminate].
    injection Hr as <-. eauto.
  - unfold ensure_int32, with_columns in H. cbn [mapM compile] in H.
    unfold find_column in H. rewrite Hi in H. discriminate.
Qed.



(** X3. [ensure_int32] is idempotent: applied to a table it returned, it
    returns that table unchanged. *)
Theorem ensure_int32_idempotent :
  forall (d d' : DataFrame) (taxid_col : string),
    ensure_int32 d taxid_col = Ok d' ->
    ensure_int32 d' taxid_col = Ok d'.
Proof.
  intros d d' taxid_col H.
  destruct (ensure_int32_inv d d' taxid_col H) as (i & Hi & Hc & Hrows).
  apply ensure_int32_id. exists i. rewrite Hc. split; [assumption|].
  intros r' Hr'.
  destruct (Forall2_In_r _ _ _ r' Hrows Hr') as (r & _ & x & Hx & ->).
  destruct (Nat.lt_ge_cases i (List.length r)) as [Hlt|Hge].
  - rewrite (get_replace_nth_same i x r Hlt). eapply cast_result_id32; eassumption.
  - rewrite (replace_nth_beyond i x r Hge). now rewrite (get_beyond i r Hge).
Qed.

Lemma ensure_int32_idempotent_witness :
  ensure_int32 (mkDF ["taxid"; "value"] [[Int 12; Int 1]; [Int (-3); Int 2]]) "taxid" =
  Ok (mkDF ["taxid"; "value"] [[Int 12; Int 1]; [Int (-3); Int 2]]).
Proof.
  apply (ensure_int32_idempotent text_ids). vm_compute. reflexivity.
Defined.

(** ** The shape of the results *)

Lemma sort_inv (d res : DataFrame) (by_ : string) :
  sort d by_ = Ok res ->
  exists i, index_of by_ (columns d) = Some i /\
            columns res = columns d /\ rows res = sort_rows i (rows d).
Proof.
  unfold sort, find_column. intros H.
  destruct (index_of by_ (columns d)) as [i|]; [|discriminate].
  injection H as <-. eauto.
Qed.

Lemma rename_inv (d res : DataFrame) (old new : string) :
  rename d old new = Ok res ->
  columns res = map (fun c => if String.eqb c old then new else c) (columns d) /\
  rows res = rows d.
Proof.
  unfold rename. intros H. do 2 inv_bind H. injection H as <-. now split.
Qed.

Lemma check_unique_ok (names : list string) (u : unit) :
  check_unique names = Ok u -> first_duplicate names = None.
Proof.
  unfold check_unique. now destruct (first_duplicate names).
Qed.

Lemma agg_inv (g : GroupBy) (fn : reducer) (column : string) (res : DataFrame) :
  agg g fn column = Ok res ->
  first_duplicate (gb_keys g ++ [column]) = None /\
  columns res = gb_keys g ++ [column] /\
  exists i, rows res =
            map (fun kg => fst kg ++ [reduce fn (map (get i) (snd kg))]) (gb_groups g).
Proof.
  unfold agg. intros H. do 2 inv_bind H. injection H as <-.
  split; [eapply check_unique_ok; eassumption|]. split; [reflexivity|].
  cbn [rows]. eexists. reflexivity.
Qed.

Lemma len_inv (g : GroupBy) (name : string) (res : DataFrame) :
  len g name = Ok res ->
  first_duplicate (gb_keys g ++ [name]) = None /\
  columns res = gb_keys g ++ [name] /\
  rows res = map (fun kg => fst kg ++ [Int (Z.of_nat (List.length (snd kg)))])
                 (gb_groups g).
Proof.
  unfold len. intros H. inv_bind H. injection H as <-.
  split; [eapply check_unique_ok; eassumption|]. now split.
Qed.

Lemma group_by_inv (d : DataFrame) (keys : list string) (g : GroupBy) :
  group_by d keys = Ok g ->
  gb_columns g = columns d /\ gb_keys g = keys /\
  exists idx, mapM (find_column (columns d)) keys = Ok idx /\
              gb_groups g = groups_of idx (rows d).
Proof.
  unfold group_by. intros H. inv_bind H. injection H as <-. cbn. eauto.
Qed.

Lemma groups_of_key_length (idx : list nat) (rs : list row) (kg : list cell * list row) :
  In kg (groups_of idx rs) -> List.length (fst kg) = List.length idx.
Proof.
  unfold groups_of. intros H. apply in_map_iff in H. destruct H as (k & <- & Hk).
  apply (proj1 (dedup_In _ keys_eqb_eq _ _)) in Hk.
  apply in_map_iff in Hk. destruct Hk as (r & <- & _).
  cbn [fst]. unfold key_of. apply length_map.
Qed.

Lemma renamed_columns (name : string) :
  first_duplicate ["pylifemap_ascend"; name] = None ->
  map (fun c => if String.eqb c "pylifemap_ascend" then "taxid" else c)
      ["pylifemap_ascend"; name] = ["taxid"; name].
Proof.
  cbn [first_duplicate mem existsb map]. rewrite String.eqb_refl.
  destruct (String.eqb_spec "pylifemap_ascend" name) as [<-|Hne]; [discriminate|].
  intros _. now rewrite (eqb_neq_r _ _ Hne).
Qed.

Lemma two_cells (F : list cell * list row -> cell) (i : nat)
  (groups : list (list cell * list row)) :
  (forall kg, In kg groups -> List.length (fst kg) = 1%nat) ->
  Forall (fun r => List.length r = 2%nat)
         (sort_rows i (map (fun kg => fst kg ++ [F kg]) groups)).
Proof.
  intros H. apply Forall_forall. intros r Hr. apply sort_rows_In in Hr.
  apply in_map_iff in Hr. destruct Hr as (kg & <- & Hkg).
  rewrite length_app, (H kg Hkg). reflexivity.
Qed.

(** X4. Whatever the input, a table returned by [aggregate_num] has exactly
    the columns taxid and the target column, in this order, and one by
    [aggregate_count] the columns taxid and the result column; every row has
    two cells. *)
Theorem aggregate_result_shape :
  forall (LMDATA : DataFrame) (o : pyobj) (column fn result_col taxid_col : string)
         (res : DataFrame),
    (aggregate_num LMDATA o column fn taxid_col = Ok res ->
     columns res = ["taxid"; column] /\
     Forall (fun r => List.length r = 2%nat) (rows res)) /\
    (aggregate_count LMDATA o result_col taxid_col = Ok res ->
     columns res = ["taxid"; result_col] /\
     Forall (fun r => List.length r = 2%nat) (rows res)).
Proof.
  intros LMDATA o column fn result_col taxid_col res.
  assert (Hkeys : forall (d : DataFrame) (g : GroupBy),
             group_by d ["pylifemap_ascend"] = Ok g ->
             gb_keys g = ["pylifemap_ascend"] /\
             forall kg, In kg (gb_groups g) -> List.length (fst kg) = 1%nat).
  { intros d g Hg. apply group_by_inv in Hg.
    destruct Hg as (_ & Hk & idx & Hidx & Hgroups). split; [assumption|].
    intros kg Hkg. rewrite Hgroups in Hkg.
    rewrite (groups_of_key_length _ _ _ Hkg).
    apply mapM_Forall2, Forall2_length in Hidx. now rewrite <- Hidx. }
  split; intros H.
  - unfold aggregate_num in H. do 4 inv_bind H.
    destruct (String.eqb column "taxid"); [discriminate|].
    destruct (lookup fn fn_dict) as [agg_fn|]; [|discriminate].
    do 9 inv_bind H.
    match goal with Hg : group_by _ _ = Ok _ |- _ =>
      destruct (Hkeys _ _ Hg) as [Hk Hlen] end.
    match goal with Ha : agg _ _ _ = Ok _ |- _ =>
      apply agg_inv in Ha; destruct Ha as (Hu & Hc & j & Hr) end.
    match goal with Hn : rename _ _ _ = Ok _ |- _ =>
      apply rename_inv in Hn; destruct Hn as (Hc' & Hr') end.
    apply sort_inv in H. destruct H as (i & _ & Hc'' & Hr'').
    rewrite Hk in *. cbn [app] in *.
    rewrite Hc'', Hc', Hc, (renamed_columns _ Hu). split; [reflexivity|].
    rewrite Hr'', Hr', Hr. now apply two_cells.
  - unfold aggregate_count in H. do 12 inv_bind H.
    match goal with Hg : group_by _ _ = Ok _ |- _ =>
      destruct (Hkeys _ _ Hg) as [Hk Hlen] end.
    match goal with Ha : len _ _ = Ok _ |- _ =>
      apply len_inv in Ha; destruct Ha as (Hu & Hc & Hr) end.
    match goal with Hn : rename _ _ _ = Ok _ |- _ =>
      apply rename_inv in Hn; destruct Hn as (Hc' & Hr') end.
    apply sort_inv in H. destruct H as (i & _ & Hc'' & Hr'').
    rewrite Hk in *. cbn [app] in *.
    rewrite Hc'', Hc', Hc, (renamed_columns _ Hu). split; [reflexivity|].
    rewrite Hr'', Hr', Hr.
    now apply (two_cells (fun kg => Int (Z.of_nat (List.length (snd kg))))).
Qed.

Lemma aggregate_result_shape_witness :
  (columns (mkDF ["taxid"; "value"] [[Null; Int 7]; [Int 1; Int 7]]) =
     ["taxid"; "value"] /\
   Forall (fun r => List.length r = 2%nat)
          (rows (mkDF ["taxid"; "value"] [[Null; Int 7]; [Int 1; Int 7]]))) /\
  (columns (mkDF ["taxid"; "n"] [[Null; Int 1]; [Int 1; Int 1]]) = ["taxid"; "n"] /\
   Forall (fun r => List.length r = 2%nat)
          (rows (mkDF ["taxid"; "n"] [[Null; Int 1]; [Int 1; Int 1]]))).
Proof.
  split.
  - apply (proj1 (aggregate_result_shape tree (PolarsDataFrame root_only)
                    "value" "sum" "n" "taxid" _)).
    vm_compute. reflexivity.
  - apply (proj2 (aggregate_result_shape tree (PolarsDataFrame root_only)
                    "value" "sum" "n" "taxid" _)).
    vm_compute. reflexivity.
Defined.

(** ** The taxids of a result *)

Lemma sorted_keys (i : nat) (l : list row) :
  map (get i) (sort_rows i l) = sort_cells (map (get i) l).
Proof.
  induction l as [|r l IH]; [reflexivity|].
  cbn [sort_rows sort_cells fold_right map].
  fold (sort_rows i l). fold (sort_cells (map (get i) l)). rewrite <- IH.
  generalize (sort_rows i l) as s. clear IH.
  induction s as [|r' s IH]; [reflexivity|].
  cbn [insert_row map insert_cell].
  destruct (cell_leb (get i r) (get i r')); cbn [map]; [reflexivity|].
  now rewrite IH.
Qed.

Lemma insert_cell_In (x c : cell) (l : list cell) :
  In x (insert_cell c l) <-> x = c \/ In x l.
Proof.
  induction l as [|c' l IH]; simpl.
  - intuition congruence.
  - destruct (cell_leb c c'); simpl; rewrite ?IH; intuition congruence.
Qed.

Lemma sort_cells_In (x : cell) (l : list cell) : In x (sort_cells l) <-> In x l.
Proof.
  induction l as [|c l IH]; simpl; [tauto|].
  rewrite insert_cell_In, IH. intuition congruence.
Qed.

Lemma expansion_keys_of (m : mapping) (n i : nat) (f : row -> row) (rs : list row) :
  (forall r, List.length (f r) = n) ->
  (forall r, get 0 (f r) = get i r) ->
  map (key_of [n]) (expanded_rows m 0 (map f rs) ++ self_rows 0 (map f rs)) =
  expansion_keys m i rs.
Proof.
  intros Hlen Hkey. unfold expansion_keys, expanded_rows, self_rows.
  rewrite map_app, !map_map. f_equal.
  - induction rs as [|r rs IH]; [reflexivity|].
    cbn [map flat_map]. rewrite map_app. f_equal; [|exact IH].
    rewrite map_map, Hkey. apply map_ext. intros a.
    cbn. rewrite <- (Hlen r). now rewrite get_app_last.
  - apply map_ext. intros r. cbn. rewrite <- (Hlen r) at 1.
    now rewrite get_app_last, Hkey.
Qed.

(** The taxid column of an aggregated table: the distinct keys, sorted. *)
Lemma result_ids (m : mapping) (F : list cell * list row -> cell) (n i : nat)
  (f : row -> row) (rs : list row) :
  (forall r, List.length (f r) = n) ->
  (forall r, get 0 (f r) = get i r) ->
  map (get 0)
      (sort_rows 0
         (map (fun kg => fst kg ++ [F kg])
              (groups_of [n] (expanded_rows m 0 (map f rs) ++ self_rows 0 (map f rs))))) =
  sort_cells (map (hd Null) (dedup keys_eqb (expansion_keys m i rs))).
Proof.
  intros Hlen Hkey. rewrite sorted_keys. f_equal.
  unfold groups_of. rewrite !map_map. cbn [fst snd].
  rewrite (expansion_keys_of m n i f rs Hlen Hkey).
  apply map_ext_in. intros k Hk.
  apply (proj1 (dedup_In _ keys_eqb_eq _ _)) in Hk.
  unfold expansion_keys in Hk. apply in_app_or in Hk. destruct Hk as [Hk|Hk].
  - apply in_flat_map in Hk. destruct Hk as (r & _ & Hk).
    apply in_map_iff in Hk. destruct Hk as (a & <- & _). reflexivity.
  - apply in_map_iff in Hk. destruct Hk as (r & <- & _). reflexivity.
Qed.

Lemma result_ids_In (m : mapping) (i : nat) (rs : list row) (k : cell) :
  In k (sort_cells (map (hd Null) (dedup keys_eqb (expansion_keys m i rs)))) <->
  exists r, In r rs /\ (k = get i r \/ In k (ascend m (get i r))).
Proof.
  rewrite sort_cells_In, in_map_iff. split.
  - intros (ks & <- & Hks). apply (proj1 (dedup_In _ keys_eqb_eq _ _)) in Hks.
    unfold expansion_keys in Hks. apply in_app_or in Hks. destruct Hks as [Hks|Hks].
    + apply in_flat_map in Hks. destruct Hks as (r & Hr & Hks).
      apply in_map_iff in Hks. destruct Hks as (a & <- & Ha). exists r. auto.
    + apply in_map_iff in Hks. destruct Hks as (r & <- & Hr). exists r. auto.
  - intros (r & Hr & H). exists [k]. split; [reflexivity|].
    apply (dedup_In _ keys_eqb_eq). unfold expansion_keys. apply in_or_app.
    destruct H as [->|H].
    + right. now apply (in_map (fun r => [get i r])).
    + left. apply in_flat_map. exists r. split; [assumption|].
      now apply (in_map (fun a => [a])).
Qed.

Lemma ascend_int (m : mapping) (c : cell) (t : Z) :
  In (Int t) (ascend m c) <-> exists z, c = Int z /\ In t (ancestors m z).
Proof.
  destruct c as [|z|q|s|l];
    try (unfold ascend, joined; cbn [key_match cell_eqb]; rewrite filter_false;
         cbn; split; [intros [H|[]]; discriminate | intros (z & H & _); discriminate]).
  unfold ascend, joined, ancestors. cbn [key_match cell_eqb].
  rewrite (filter_ext (fun ka : Z * list Z => z =? fst ka) (fun ka => fst ka =? z))
    by (intros; apply Z.eqb_sym).
  set (ms := filter (fun ka => fst ka =? z) m).
  assert (H : In (Int t) (flat_map explode_cell (map (fun ka => Lst (snd ka)) ms)) <->
              In t (flat_map snd ms)).
  { induction ms as [|[k a] ms IH]; [cbn; tauto|].
    cbn [map flat_map snd]. rewrite !in_app_iff, IH.
    assert (Ha : In (Int t) (explode_cell (Lst a)) <-> In t a).
    { destruct a as [|y a]; [cbn; intuition discriminate|].
      unfold explode_cell. rewrite in_map_iff. split.
      - intros (x & [= ->] & Hx). assumption.
      - intros Hx. eauto. }
    now rewrite Ha. }
  split.
  - intros Hin. exists z. split; [reflexivity|]. apply H.
    destruct ms; [destruct Hin as [Hin|[]]; discriminate | assumption].
  - intros (z' & [= <-] & Hin). apply H in Hin.
    destruct ms; [destruct Hin | assumption].
Qed.

Lemma ascend_null (m : mapping) (c : cell) :
  tree_like m -> (In Null (ascend m c) <-> no_ancestors m c).
Proof.
  intros [Hkeys _]. split; [|apply no_ancestors_null].
  destruct c as [|z|q|s|l]; try (intros _; exact I).
  unfold ascend, joined, no_ancestors, ancestors. cbn [key_match cell_eqb].
  rewrite (filter_ext (fun ka : Z * list Z => z =? fst ka) (fun ka => fst ka =? z))
    by (intros; apply Z.eqb_sym).
  destruct (tree_like_lookup m z Hkeys) as [->|(a & -> & _)]; [reflexivity|].
  cbn [map flat_map snd]. rewrite !app_nil_r.
  destruct a as [|y a]; [reflexivity|].
  unfold explode_cell. intros H. apply in_map_iff in H.
  destruct H as (x & Hx & _). discriminate.
Qed.

Lemma ascend_cells (m : mapping) (c k : cell) :
  In k (ascend m c) -> k = Null \/ exists t, k = Int t.
Proof.
  unfold ascend. intros H. apply in_flat_map in H. destruct H as (x & _ & H).
  destruct x as [| | | |[|y a]]; cbn in H;
    try (destruct H as [<-|[]]; now left).
  right. destruct H as [<-|H]; [eauto|].
  apply in_map_iff in H. destruct H as (t & <- & _). eauto.
Qed.

Lemma in_subtree_iff (m : mapping) (t : Z) (c : cell) :
  in_subtree m t c = true <->
  c = Int t \/ exists z, c = Int z /\ In t (ancestors m z).
Proof.
  destruct c as [|z|q|s|l]; cbn;
    try (split; [discriminate | intros [H|(z & H & _)]; discriminate]).
  rewrite orb_true_iff, Z.eqb_eq, existsb_exists. split.
  - intros [->|(x & Hx & Hxt)]; [now left|].
    apply Z.eqb_eq in Hxt. subst. right. eauto.
  - intros [[= ->]|(z' & [= <-] & Hin)]; [now left|].
    right. exists t. split; [assumption | apply Z.eqb_refl].
Qed.

(** X5. The taxids of the table [aggregate_count] returns are exactly these:
    a taxid [t] when some input row is in the subtree of [t] (it has taxid
    [t] or has [t] among its ancestors); the null taxid when some input row
    has no ancestors; and nothing else. *)
Theorem aggregate_count_taxids :
  forall (LMDATA : DataFrame) (m : mapping) (o : pyobj) (d : DataFrame)
         (result_col taxid_col : string) (i : nat),
    select LMDATA [col "taxid"; col "pylifemap_ascend"] = Ok (mapping_frame m) ->
    tree_like m ->
    ensure_polars o = Ok d ->
    index_of taxid_col (columns d) = Some i ->
    (forall r, In r (rows d) -> is_id32 (get i r) = true) ->
    result_col <> "taxid" -> result_col <> "pylifemap_ascend" ->
    exists res ids,
      aggregate_count LMDATA o result_col taxid_col = Ok res /\
      get_column res "taxid" = Ok ids /\
      (forall t, In (Int t) ids <->
                 exists r, In r (rows d) /\ in_subtree m t (get i r) = true) /\
      (In Null ids <-> exists r, In r (rows d) /\ no_ancestors m (get i r)) /\
      (forall k, In k ids -> k = Null \/ exists t, k = Int t).
Proof.
  intros LMDATA m o d result_col taxid_col i Hlm Hm Ho Hi Hids Hne1 Hne2.
  rewrite (aggregate_count_closed LMDATA m o d result_col taxid_col i
             Hlm Ho Hi Hids Hne1 Hne2).
  eexists. eexists. split; [reflexivity|]. split; [reflexivity|].
  cbn [rows].
  rewrite (result_ids m _ 1 i (fun r => [get i r]) (rows d)
             (fun _ => eq_refl) (fun _ => eq_refl)).
  split; [|split].
  - intros t. rewrite result_ids_In. split.
    + intros (r & Hr & H). exists r. split; [assumption|].
      apply in_subtree_iff. destruct H as [H|H]; [now left|].
      right. now apply ascend_int.
    + intros (r & Hr & H). exists r. split; [assumption|].
      apply in_subtree_iff in H. destruct H as [H|H]; [now left|].
      right. now apply ascend_int.
  - rewrite result_ids_In. split.
    + intros (r & Hr & [H|H]); exists r; (split; [assumption|]).
      * now rewrite <- H.
      * now apply ascend_null.
    + intros (r & Hr & H). exists r. split; [assumption|].
      right. now apply ascend_null.
  - intros k Hk. apply result_ids_In in Hk. destruct Hk as (r & Hr & [->|H]).
    + specialize (Hids r Hr). destruct (get i r); try discriminate; eauto.
    + eapply ascend_cells; eassumption.
Qed.

Lemma aggregate_count_taxids_witness :
  exists res ids,
    aggregate_count tree (PolarsDataFrame observations) "n" "taxid" = Ok res /\
    get_column res "taxid" = Ok ids /\
    (forall t, In (Int t) ids <->
               exists r, In r (rows observations) /\
                         in_subtree tree_map t (get 0 r) = true) /\
    (In Null ids <->
     exists r, In r (rows observations) /\ no_ancestors tree_map (get 0 r)) /\
    (forall k, In k ids -> k = Null \/ exists t, k = Int t).
Proof.
  apply (aggregate_count_taxids tree tree_map (PolarsDataFrame observations)
           observations "n" "taxid" 0).
  - reflexivity.
  - exact tree_map_tree_like.
  - reflexivity.
  - reflexivity.
  - intros r Hr. simpl in Hr.
    repeat (destruct Hr as [<-|Hr]; [reflexivity|]). contradiction.
  - discriminate.
  - discriminate.
Defined.

(** X6. On the same table [aggregate_num] and [aggregate_count] return the
    same taxid column: the same taxids in the same order, whatever the
    target column and the function. *)
Theorem aggregate_num_and_count_same_taxids :
  forall (LMDATA : DataFrame) (m : mapping) (o : pyobj) (d : DataFrame)
         (column fn result_col taxid_col : string) (agg_fn : reducer) (i j : nat),
    select LMDATA [col "taxid"; col "pylifemap_ascend"] = Ok (mapping_frame m) ->
    ensure_polars o = Ok d ->
    index_of taxid_col (columns d) = Some i ->
    (forall r, In r (rows d) -> is_id32 (get i r) = true) ->
    index_of column (columns d) = Some j ->
    column <> "taxid" -> column <> "pylifemap_ascend" ->
    lookup fn fn_dict = Some agg_fn ->
    result_col <> "taxid" -> result_col <> "pylifemap_ascend" ->
    exists res1 res2 ids,
      aggregate_num LMDATA o column fn taxid_col = Ok res1 /\
      aggregate_count LMDATA o result_col taxid_col = Ok res2 /\
      get_column res1 "taxid" = Ok ids /\
      get_column res2 "taxid" = Ok ids.
Proof.
  intros LMDATA m o d column fn result_col taxid_col agg_fn i j
         Hlm Ho Hi Hids Hj Hc1 Hc2 Hfn Hr1 Hr2.
  rewrite (aggregate_num_closed LMDATA m Hlm o d Ho taxid_col i Hi Hids
             column fn agg_fn j Hj Hc1 Hc2 Hfn).
  rewrite (aggregate_count_closed LMDATA m o d result_col taxid_col i
             Hlm Ho Hi Hids Hr1 Hr2).
  do 3 eexists. split; [reflexivity|]. split; [reflexivity|].
  split; [reflexivity|]. unfold get_column, find_column.
  cbn [columns rows index_of]. rewrite String.eqb_refl. cbn [bind]. f_equal.
  transitivity (sort_cells (map (hd Null) (dedup keys_eqb (expansion_keys m i (rows d))))).
  - apply (result_ids m (fun kg => Int (Z.of_nat (List.length (snd kg)))) 1 i
             (fun r => [get i r]) (rows d)
             (fun _ => eq_refl) (fun _ => eq_refl)).
  - symmetry.
    apply (result_ids m (fun kg => reduce agg_fn (map (get 1) (snd kg))) 2 i
             (fun r => [get i r; get j r]) (rows d)
             (fun _ => eq_refl) (fun _ => eq_refl)).
Qed.

Lemma aggregate_num_and_count_same_taxids_witness :
  exists res1 res2 ids,
    aggregate_num tree (PolarsDataFrame observations) "value" "mean" "taxid" = Ok res1 /\
    aggregate_count tree (PolarsDataFrame observations) "n" "taxid" = Ok res2 /\
    get_column res1 "taxid" = Ok ids /\
    get_column res2 "taxid" = Ok ids.
Proof.
  apply (aggregate_num_and_count_same_taxids tree tree_map
           (PolarsDataFrame observations) observations "value" "mean" "n" "taxid"
           pl_mean 0 1).
  - reflexivity.
  - reflexivity.
  - reflexivity.
  - intros r Hr. simpl in Hr.
    repeat (destruct Hr as [<-|Hr]; [reflexivity|]). contradiction.
  - reflexivity.
  - discriminate.
  - discriminate.
  - reflexivity.
  - discriminate.
  - discriminate.
Defined.

(** ** Edge cases of [aggregate_num] and [aggregate_count] *)

(** X7. On a table without rows both functions return a table without rows,
    with their two columns. *)
Theorem empty_table_gives_empty_result :
  forall (LMDATA : DataFrame) (m : mapping) (o : pyobj) (d : DataFrame)
         (taxid_col : string) (i : nat),
    select LMDATA [col "taxid"; col "pylifemap_ascend"] = Ok (mapping_frame m) ->
    ensure_polars o = Ok d ->
    index_of taxid_col (columns d) = Some i ->
    rows d = [] ->
    (forall (column fn : string) (agg_fn : reducer) (j : nat),
        index_of column (columns d) = Some j ->
        column <> "taxid" -> column <> "pylifemap_ascend" ->
        lookup fn fn_dict = Some agg_fn ->
        aggregate_num LMDATA o column fn taxid_col = Ok (mkDF ["taxid"; column] [])) /\
    (forall result_col : string,
        result_col <> "taxid" -> result_col <> "pylifemap_ascend" ->
        aggregate_count LMDATA o result_col taxid_col =
        Ok (mkDF ["taxid"; result_col] [])).
Proof.
  intros LMDATA m o d taxid_col i Hlm Ho Hi Hrows.
  assert (Hids : forall r, In r (rows d) -> is_id32 (get i r) = true).
  { rewrite Hrows. intros r []. }
  split.
  - intros column fn agg_fn j Hj Hne1 Hne2 Hfn.
    rewrite (aggregate_num_closed LMDATA m Hlm o d Ho taxid_col i Hi Hids
               column fn agg_fn j Hj Hne1 Hne2 Hfn).
    now rewrite Hrows.
  - intros result_col Hne1 Hne2.
    rewrite (aggregate_count_closed LMDATA m o d result_col taxid_col i
               Hlm Ho Hi Hids Hne1 Hne2).
    now rewrite Hrows.
Qed.

Lemma empty_table_gives_empty_result_witness :
  aggregate_num tree (PolarsDataFrame (mkDF ["taxid"; "value"] [])) "value" "max" "taxid" =
    Ok (mkDF ["taxid"; "value"] []) /\
  aggregate_count tree (PolarsDataFrame (mkDF ["taxid"; "value"] [])) "n" "taxid" =
    Ok (mkDF ["taxid"; "n"] []).
Proof.
  split.
  - apply (proj1 (empty_table_gives_empty_result tree tree_map
                    (PolarsDataFrame (mkDF ["taxid"; "value"] []))
                    (mkDF ["taxid"; "value"] []) "taxid" 0
                    eq_refl eq_refl eq_refl eq_refl) "value" "max" pl_max 1%nat).
    + reflexivity.
    + discriminate.
    + discriminate.
    + reflexivity.
  - apply (proj2 (empty_table_gives_empty_result tree tree_map
                    (PolarsDataFrame (mkDF ["taxid"; "value"] []))
                    (mkDF ["taxid"; "value"] []) "taxid" 0
                    eq_refl eq_refl eq_refl eq_refl) "n").
    + discriminate.
    + discriminate.
Defined.

Lemma missing_column_value_error_witness :
  aggregate_num tree (PolarsDataFrame categories_by_id) "value" "sum" "taxid" =
    Raise (ValueError "value is not a column of the DataFrame.") /\
  aggregate_num tree (PolarsDataFrame categories_by_id) "cat" "sum" "taxid" =
    Raise (ValueError "taxid is not a column of the DataFrame.") /\
  aggregate_count tree (PolarsDataFrame categories_by_id) "n" "taxid" =
    Raise (ValueError "taxid is not a column of the DataFrame.").
Proof.
  split; [|split].
  - apply (proj1 (missing_column_value_error tree (PolarsDataFrame categories_by_id)
                    categories_by_id "value" "sum" "n" "taxid" eq_refl)).
    reflexivity.
  - apply (proj1 (proj2 (missing_column_value_error tree
                           (PolarsDataFrame categories_by_id) categories_by_id
                           "cat" "sum" "n" "taxid" eq_refl)));
      reflexivity.
  - apply (proj2 (proj2 (missing_column_value_error tree
                           (PolarsDataFrame categories_by_id) categories_by_id
                           "cat" "sum" "n" "taxid" eq_refl))).
    reflexivity.
Defined.

Lemma input_taxids_kept_witness :
  (exists res ids,
      aggregate_num tree (PolarsDataFrame observations) "value" "min" "taxid" = Ok res /\
      get_column res "taxid" = Ok ids /\ In (Int 5) ids) /\
  (exists res ids,
      aggregate_count tree (PolarsDataFrame observations) "n" "taxid" = Ok res /\
      get_column res "taxid" = Ok ids /\ In (Int 5) ids).
Proof.
  assert (Hids : forall r, In r (rows observations) -> is_id32 (get 0 r) = true).
  { intros r Hr. simpl in Hr.
    repeat (destruct Hr as [<-|Hr]; [reflexivity|]). contradiction. }
  assert (Hr : In [Int 5; Int 3] (rows observations)) by (simpl; tauto).
  split.
  - apply (proj1 (input_taxids_kept tree tree_map (PolarsDataFrame observations)
                    observations "taxid" 0 [Int 5; Int 3]
                    eq_refl eq_refl eq_refl Hids Hr) "value" "min" pl_min 1%nat).
    + reflexivity.
    + discriminate.
    + discriminate.
    + reflexivity.
  - apply (proj2 (input_taxids_kept tree tree_map (PolarsDataFrame observations)
                    observations "taxid" 0 [Int 5; Int 3]
                    eq_refl eq_refl eq_refl Hids Hr) "n").
    + discriminate.
    + discriminate.
Defined.

Lemma leaves_appended_witness :
  exists counts,
    aggregate_cat tree (PolarsDataFrame categories) "cat" false "taxid" = Ok counts /\
    columns (mkDF ["taxid"; "cat"; "pylifemap_count_type"]
               [[Int 2; Str (json_encode [("a", Int 1); ("b", Int 1)]); Str "count"];
                [Int 1; Str (json_encode [("a", Int 2); ("b", Int 1)]); Str "count"];
                [Int 3; Str (json_encode [("a", Int 1); ("b", Int 0)]); Str "count"];
                [Int 4; Str "a"; Str "leaf"];
                [Int 5; Str "b"; Str "leaf"];
                [Int 6; Str "a"; Str "leaf"]]) =
      ["taxid"; "cat"; "pylifemap_count_type"] /\
    rows (mkDF ["taxid"; "cat"; "pylifemap_count_type"]
            [[Int 2; Str (json_encode [("a", Int 1); ("b", Int 1)]); Str "count"];
             [Int 1; Str (json_encode [("a", Int 2); ("b", Int 1)]); Str "count"];
             [Int 3; Str (json_encode [("a", Int 1); ("b", Int 0)]); Str "count"];
             [Int 4; Str "a"; Str "leaf"];
             [Int 5; Str "b"; Str "leaf"];
             [Int 6; Str "a"; Str "leaf"]]) =
      rows counts ++ map (fun r => [get 0 r; get 1 r; Str "leaf"]) (rows categories).
Proof.
  apply (leaves_appended tree (PolarsDataFrame categories) categories _ "cat" 0 1).
  - reflexivity.
  - reflexivity.
  - intros r Hr. simpl in Hr.
    repeat (destruct Hr as [<-|Hr]; [reflexivity|]). contradiction.
  - reflexivity.
  - discriminate.
  - vm_compute. reflexivity.
Defined.

(** ** The order of the input rows *)

Lemma filter_perm {A : Type} (p : A -> bool) (l l' : list A) :
  Permutation l l' -> Permutation (filter p l) (filter p l').
Proof.
  induction 1 as [|x l l' _ IH|x y l|l l' l'' _ IH1 _ IH2]; simpl.
  - constructor.
  - destruct (p x); [now constructor | assumption].
  - destruct (p x), (p y); try apply Permutation_refl. apply perm_swap.
  - eapply Permutation_trans; eassumption.
Qed.

Lemma insert_row_comm (i : nat) (x y : row) (s : list row) :
  is_key (get i x) = true -> is_key (get i y) = true ->
  Forall (fun r => is_key (get i r) = true) s ->
  get i x <> get i y ->
  insert_row i x (insert_row i y s) = insert_row i y (insert_row i x s).
Proof.
  intros Hx Hy Hs Hxy. induction Hs as [|a s Ha _ IH].
  - cbn [insert_row].
    destruct (get i x) as [|u| | |], (get i y) as [|v| | |]; try discriminate;
      cbn [cell_leb rank Nat.leb]; try reflexivity; try congruence.
    destruct (Z.leb_spec u v), (Z.leb_spec v u); try reflexivity; try lia.
    exfalso. apply Hxy. f_equal. lia.
  - cbn [insert_row].
    destruct (cell_leb (get i y) (get i a)) eqn:Eya,
             (cell_leb (get i x) (get i a)) eqn:Exa; cbn [insert_row];
      rewrite ?Eya, ?Exa;
      destruct (cell_leb (get i x) (get i y)) eqn:Exy,
               (cell_leb (get i y) (get i x)) eqn:Eyx;
      try reflexivity; try (now rewrite IH);
      exfalso;
      destruct (get i x) as [|u| | |], (get i y) as [|v| | |],
               (get i a) as [|w| | |]; try discriminate;
      cbn [cell_leb rank Nat.leb] in *; try discriminate; try congruence;
      repeat match goal with
             | H : (_ <=? _) = true |- _ => apply Z.leb_le in H
             | H : (_ <=? _) = false |- _ => apply Z.leb_gt in H
             end;
      try lia; apply Hxy; f_equal; lia.
Qed.

Lemma sort_rows_order (i : nat) (l l' : list row) :
  Permutation l l' ->
  Forall (fun r => is_key (get i r) = true) l ->
  NoDup (map (get i) l) ->
  sort_rows i l = sort_rows i l'.
Proof.
  induction 1 as [|x l l' Hp IH|x y l|l l' l'' Hp1 IH1 Hp2 IH2];
    intros Hk Hnd.
  - reflexivity.
  - cbn [sort_rows fold_right]. fold (sort_rows i l) (sort_rows i l').
    inversion Hk; inversion Hnd; subst. f_equal. now apply IH.
  - cbn [sort_rows fold_right]. fold (sort_rows i l).
    inversion Hk as [|? ? Hy Hk']; subst. inversion Hk' as [|? ? Hx Hk'']; subst.
    cbn [map] in Hnd. inversion Hnd as [|? ? Hnin _]; subst.
    apply insert_row_comm; try assumption.
    + apply Forall_forall. intros r Hr. apply sort_rows_In in Hr.
      rewrite Forall_forall in Hk''. now apply Hk''.
    + intros E. apply Hnin. left. now symmetry.
  - rewrite IH1 by assumption. apply IH2.
    + eapply Permutation_Forall; eassumption.
    + eapply Permutation_NoDup; [|exact Hnd]. now apply Permutation_map.
Qed.

(** Sorting the aggregated groups forgets the order in which the rows came. *)
Lemma aggregated_order (F : list cell * list row -> cell) (n : nat)
  (all all' : list row) :
  Permutation all all' ->
  (forall k g g', Permutation g g' -> F (k, g) = F (k, g')) ->
  (forall r, In r all -> is_key (get n r) = true) ->
  sort_rows 0 (map (fun kg => fst kg ++ [F kg]) (groups_of [n] all)) =
  sort_rows 0 (map (fun kg => fst kg ++ [F kg]) (groups_of [n] all')).
Proof.
  intros Hp HF Hk. apply sort_rows_order.
  - unfold groups_of. rewrite !map_map. cbn [fst snd].
    eapply Permutation_trans.
    + apply Permutation_map.
      apply (NoDup_Permutation (l' := dedup keys_eqb (map (key_of [n]) all'))).
      * apply (dedup_NoDup _ keys_eqb_eq).
      * apply (dedup_NoDup _ keys_eqb_eq).
      * intros k. rewrite !(dedup_In _ keys_eqb_eq). split; intros H.
        -- eapply Permutation_in; [|exact H]. now apply Permutation_map.
        -- eapply Permutation_in; [|exact H].
           now apply Permutation_map, Permutation_sym.
    + apply eq_Permutation. apply map_ext. intros k. f_equal. f_equal.
      apply HF. now apply filter_perm.
  - apply Forall_forall. intros x Hx. apply in_map_iff in Hx.
    destruct Hx as (kg & <- & Hkg). unfold groups_of in Hkg.
    apply in_map_iff in Hkg. destruct Hkg as (k & <- & Hin).
    apply (proj1 (dedup_In _ keys_eqb_eq _ _)) in Hin.
    apply in_map_iff in Hin. destruct Hin as (r & <- & Hr).
    cbn. now apply Hk.
  - eapply Permutation_NoDup; [|apply (aggregated_keys_NoDup F n all)].
    apply Permutation_map, sort_rows_perm.
Qed.

Lemma expansion_keys_are_keys (m : mapping) (n i : nat) (f : row -> row)
  (rs : list row) (r : row) :
  (forall r, List.length (f r) = n) ->
  (forall r, get 0 (f r) = get i r) ->
  (forall r, In r rs -> is_id32 (get i r) = true) ->
  In r (expanded_rows m 0 (map f rs) ++ self_rows 0 (map f rs)) ->
  is_key (get n r) = true.
Proof.
  intros Hlen Hkey Hids H. apply in_app_or in H. destruct H as [H|H].
  - apply in_flat_map in H. destruct H as (r' & Hr' & H).
    apply in_map_iff in Hr'. destruct Hr' as (r0 & <- & _).
    apply in_map_iff in H. destruct H as (a & <- & Ha).
    rewrite <- (Hlen r0), get_app_last.
    destruct (ascend_cells _ _ _ Ha) as [->|(t & ->)]; reflexivity.
  - apply in_map_iff in H. destruct H as (r' & <- & Hr').
    apply in_map_iff in Hr'. destruct Hr' as (r0 & <- & Hr0).
    rewrite <- (Hlen r0) at 1. rewrite get_app_last, Hkey.
    specialize (Hids r0 Hr0). now destruct (get i r0).
Qed.

Lemma expansion_perm (m : mapping) (f : row -> row) (rs rs' : list row) :
  Permutation rs rs' ->
  Permutation (expanded_rows m 0 (map f rs) ++ self_rows 0 (map f rs))
              (expanded_rows m 0 (map f rs') ++ self_rows 0 (map f rs')).
Proof.
  intros H. apply Permutation_app.
  - apply Permutation_flat_map. now apply Permutation_map.
  - unfold self_rows. now do 2 apply Permutation_map.
Qed.



(** ** [preprocess_counts] *)

Lemma mem_upsert (c : string) (l : list string) (n : string) :
  mem c (upsert_name l n) = mem c l || String.eqb c n.
Proof.
  unfold upsert_name. destruct (mem n l) eqn:E.
  - destruct (String.eqb_spec c n) as [->|_]; [now rewrite E | now rewrite orb_false_r].
  - rewrite mem_app. cbn. now rewrite orb_false_r.
Qed.

Lemma mem_filter (c : string) (p : string -> bool) (l : list string) :
  mem c (filter p l) = mem c l && p c.
Proof.
  induction l as [|x l IH]; [reflexivity|]. cbn [filter].
  change (mem c (x :: l)) with (String.eqb c x || mem c l).
  destruct (p x) eqn:E.
  - change (mem c (x :: filter p l)) with (String.eqb c x || mem c (filter p l)).
    rewrite IH.
    destruct (String.eqb_spec c x) as [->|_]; [now rewrite E | reflexivity].
  - rewrite IH.
    destruct (String.eqb_spec c x) as [->|_]; [now rewrite E, andb_false_r | reflexivity].
Qed.

Lemma mapM_length {A B : Type} (f : A -> result B) (l : list A) (l' : list B) :
  mapM f l = Ok l' -> List.length l' = List.length l.
Proof. intros H. apply mapM_Forall2, Forall2_length in H. now symmetry. Qed.

Lemma col_names_inv (levels : list cell) (names : list string) :
  col_names levels = Ok names -> levels = map Str names.
Proof.
  revert names; induction levels as [|c levels IH]; cbn; intros names H.
  - now injection H as <-.
  - destruct c; try discriminate. cbn in H. inv_bind H. injection H as <-.
    cbn. f_equal. now apply IH.
Qed.

Lemma find_columns_mem (cols names : list string) (idx : list nat) (n : string) :
  mapM (find_column cols) names = Ok idx -> In n names -> mem n cols = true.
Proof.
  intros H Hn. apply mapM_Forall2 in H.
  revert idx H. induction names as [|x names IH]; [destruct Hn|].
  intros idx H. inversion H as [|? i ? idx' Hx Hrest]; subst.
  destruct Hn as [<-|Hn]; [|eapply IH; eassumption].
  unfold find_column in Hx. apply mem_index_of.
  destruct (index_of x cols); [eauto | discriminate].
Qed.



(** ** Distinct values *)

Lemma filter_comm {A : Type} (p q : A -> bool) (l : list A) :
  filter p (filter q l) = filter q (filter p l).
Proof.
  induction l as [|x l IH]; [reflexivity|]. cbn [filter].
  destruct (p x) eqn:Ep, (q x) eqn:Eq; cbn [filter]; rewrite ?Ep, ?Eq, IH; reflexivity.
Qed.

Lemma filter_idem {A : Type} (p : A -> bool) (l : list A) :
  filter p (filter p l) = filter p l.
Proof.
  induction l as [|x l IH]; [reflexivity|]. cbn [filter].
  destruct (p x) eqn:Ep; cbn [filter]; rewrite ?Ep, IH; reflexivity.
Qed.

Lemma filter_all {A : Type} (p : A -> bool) (l : list A) :
  (forall x, In x l -> p x = true) -> filter p l = l.
Proof.
  induction l as [|x l IH]; intros H; [reflexivity|]. cbn [filter].
  rewrite (H x (or_introl eq_refl)). f_equal. apply IH. intros; apply H; now right.
Qed.

Lemma filter_none {A : Type} (p : A -> bool) (l : list A) :
  (forall x, In x l -> p x = false) -> filter p l = [].
Proof.
  induction l as [|x l IH]; intros H; [reflexivity|]. cbn [filter].
  rewrite (H x (or_introl eq_refl)). apply IH. intros; apply H; now right.
Qed.

Section Dedup.

Context {A : Type} (eqb : A -> A -> bool).
Hypothesis eqb_eq : forall a b, eqb a b = true <-> a = b.

Lemma eqb_refl' (a : A) : eqb a a = true.
Proof. now apply eqb_eq. Qed.

Lemma dedup_filter (p : A -> bool) (l : list A) :
  dedup eqb (filter p l) = filter p (dedup eqb l).
Proof.
  induction l as [|x l IH]; [reflexivity|]. cbn [filter dedup].
  destruct (p x) eqn:Ep.
  - cbn [dedup filter]. rewrite IH. f_equal. apply filter_comm.
  - rewrite IH, filter_comm.
    rewrite (filter_ext_in (fun k' => negb (eqb x k')) (fun _ => true)).
    + clear. induction (filter p (dedup eqb l)) as [|y t IH]; [reflexivity|].
      cbn [filter]. f_equal. exact IH.
    + intros y Hy. apply filter_In in Hy. destruct Hy as [_ Hy].
      destruct (eqb x y) eqn:E; [|reflexivity].
      apply eqb_eq in E. subst. congruence.
Qed.

Lemma dedup_head_again (x : A) (l : list A) :
  filter (fun y => negb (eqb x y)) (dedup eqb (x :: l)) =
  filter (fun y => negb (eqb x y)) (dedup eqb l).
Proof.
  cbn [dedup filter]. rewrite eqb_refl'. cbn [negb]. apply filter_idem.
Qed.

End Dedup.

(** Projecting distinct tuples and projecting all tuples give the same
    distinct values. *)
Lemma dedup_map_dedup {A B : Type} (eqa : A -> A -> bool) (eqb : B -> B -> bool)
  (eqa_eq : forall a b, eqa a b = true <-> a = b)
  (eqb_eq : forall a b, eqb a b = true <-> a = b)
  (g : A -> B) (l : list A) :
  dedup eqb (map g (dedup eqa l)) = dedup eqb (map g l).
Proof.
  induction l as [|x l IH]; [reflexivity|].
  cbn [dedup map]. f_equal. rewrite <- IH.
  rewrite <- !(dedup_filter eqb eqb_eq). f_equal.
  rewrite !filter_map_comm. f_equal. rewrite filter_comm.
  apply filter_all. intros y Hy. apply filter_In in Hy. destruct Hy as [_ Hy].
  destruct (eqa x y) eqn:E; [|reflexivity].
  apply eqa_eq in E. subst y.
  assert (Hg : eqb (g x) (g x) = true) by now apply eqb_eq.
  rewrite Hg in Hy. discriminate.
Qed.

(** Repeating every element, at least once, changes no distinct value. *)
Lemma dedup_repeated {A B C : Type} (eqb : B -> B -> bool)
  (eqb_eq : forall a b, eqb a b = true <-> a = b)
  (g : A -> B) (h : A -> list C) (l : list A) :
  (forall x, In x l -> h x <> []) ->
  dedup eqb (flat_map (fun x => map (fun _ => g x) (h x)) l) = dedup eqb (map g l).
Proof.
  induction l as [|x l IH]; intros Hh; [reflexivity|].
  assert (Hx : h x <> []) by (apply Hh; now left).
  change (dedup eqb (map g (x :: l)))
    with (g x :: filter (fun k' => negb (eqb (g x) k')) (dedup eqb (map g l))).
  rewrite <- IH by (intros; apply Hh; now right).
  cbn [flat_map].
  set (t := flat_map _ l). clearbody t. clear IH Hh.
  destruct (h x) as [|c cs]; [congruence|]. clear Hx.
  cbn [map app dedup]. f_equal.
  induction cs as [|c' cs IH]; [reflexivity|].
  cbn [map app]. rewrite (dedup_head_again eqb eqb_eq). exact IH.
Qed.

Lemma filter_eq_NoDup {A : Type} (eqb : A -> A -> bool)
  (eqb_eq : forall a b, eqb a b = true <-> a = b) (x : A) (l : list A) :
  NoDup l ->
  filter (fun y => eqb y x) l = if existsb (fun y => eqb y x) l then [x] else [].
Proof.
  induction 1 as [|y l Hy _ IH]; [reflexivity|]. cbn [filter existsb].
  destruct (eqb y x) eqn:E; cbn [orb].
  - apply eqb_eq in E. subst y. rewrite IH.
    destruct (existsb (fun y => eqb y x) l) eqn:E'; [|reflexivity].
    apply existsb_exists in E'. destruct E' as (z & Hz & Hzx).
    apply eqb_eq in Hzx. subst. contradiction.
  - exact IH.
Qed.

Lemma NoDup_first_duplicate (l : list string) :
  NoDup l -> first_duplicate l = None.
Proof.
  induction 1 as [|x l Hx _ IH]; [reflexivity|]. cbn [first_duplicate].
  destruct (mem x l) eqn:E; [|assumption].
  exfalso. apply Hx. unfold mem in E. apply existsb_exists in E.
  destruct E as (y & Hy & Hxy). apply String.eqb_eq in Hxy. now subst.
Qed.

(** ** The expansion of a tree has no repeated ancestor *)

Lemma ascend_NoDup (m : mapping) (c : cell) : tree_like m -> NoDup (ascend m c).
Proof.
  intros [Hkeys Hlists].
  assert (Hone : NoDup [Null]) by (constructor; [intros [] | constructor]).
  destruct c as [|z|q|s|l];
    try (unfold ascend, joined; cbn [key_match cell_eqb]; rewrite filter_false;
         exact Hone).
  unfold ascend, joined. cbn [key_match cell_eqb].
  rewrite (filter_ext (fun ka : Z * list Z => z =? fst ka) (fun ka => fst ka =? z))
    by (intros; apply Z.eqb_sym).
  destruct (tree_like_lookup m z Hkeys) as [->|(a & -> & Hin)]; [exact Hone|].
  cbn [map flat_map snd]. rewrite app_nil_r.
  destruct (Hlists z a Hin) as [Hnd _].
  destruct a as [|y a]; [exact Hone|]. unfold explode_cell.
  apply NoDup_map_NoDup_ForallPairs; [|assumption].
  intros u v _ _ [= ->]. reflexivity.
Qed.

Lemma ascend_nonempty (m : mapping) (c : cell) : ascend m c <> [].
Proof.
  unfold ascend, joined.
  destruct (filter _ m) as [|[k a] ms]; [discriminate|].
  cbn [map flat_map snd]. destruct a as [|y a]; discriminate.
Qed.

(** ** The groups of [aggregate_cat] *)

Lemma cell_eqb_sym (a b : cell) : cell_eqb a b = cell_eqb b a.
Proof.
  destruct (cell_eqb a b) eqn:E1, (cell_eqb b a) eqn:E2; try reflexivity.
  - apply cell_eqb_eq in E1. subst. now rewrite cell_eqb_refl in E2.
  - apply cell_eqb_eq in E2. subst. now rewrite cell_eqb_refl in E1.
Qed.

Lemma existsb_pointwise {A : Type} (p q : A -> bool) (l : list A) :
  (forall x, p x = q x) -> existsb p l = existsb q l.
Proof.
  intros H. induction l as [|x l IH]; [reflexivity|]. cbn. now rewrite H, IH.
Qed.

Section CategoryGroups.

Variable m : mapping.
Variables i j : nat.
Variable rows0 : list row.

Let rs : list row := map (fun r => [get i r; get j r]) rows0.
Let E : list row := expanded_rows m 0 rs.
Let K : list (list cell) := map (key_of [2%nat; 1%nat]) E.
Let R : list row :=
  map (fun kg => fst kg ++ [Int (Z.of_nat (List.length (snd kg)))])
      (groups_of [2%nat; 1%nat] E).

Lemma cat_keys :
  K = flat_map (fun r => map (fun a => [a; get j r]) (ascend m (get i r))) rows0.
Proof.
  unfold K, E, expanded_rows, rs. clear.
  induction rows0 as [|r l IH]; [reflexivity|].
  cbn [map flat_map]. rewrite map_app. f_equal; [|exact IH].
  rewrite map_map. reflexivity.
Qed.

Lemma cat_keys_shape (k : list cell) :
  In k K -> exists r a, In r rows0 /\ In a (ascend m (get i r)) /\ k = [a; get j r].
Proof.
  rewrite cat_keys. intros H. apply in_flat_map in H. destruct H as (r & Hr & H).
  apply in_map_iff in H. destruct H as (a & <- & Ha). eauto.
Qed.

Lemma cat_rows :
  R = map (fun k => k ++ [Int (Z.of_nat (List.length
                     (filter (fun e => keys_eqb (key_of [2%nat; 1%nat] e) k) E)))])
          (dedup keys_eqb K).
Proof. unfold R, groups_of. now rewrite map_map. Qed.

Lemma cat_levels : unique (map (get 1) R) = unique (map (get j) rows0).
Proof.
  rewrite cat_rows, map_map. unfold unique.
  rewrite (map_ext_in _ (fun k => nth 1 k Null)).
  2:{ intros k Hk. apply (proj1 (dedup_In _ keys_eqb_eq _ _)) in Hk.
      apply cat_keys_shape in Hk. destruct Hk as (r & a & _ & _ & ->). reflexivity. }
  rewrite (dedup_map_dedup keys_eqb cell_eqb keys_eqb_eq cell_eqb_eq).
  rewrite cat_keys.
  rewrite <- (dedup_repeated cell_eqb cell_eqb_eq (get j)
                (fun r => ascend m (get i r)) rows0)
    by (intros; apply ascend_nonempty).
  f_equal. clear. induction rows0 as [|r l IH]; [reflexivity|].
  cbn [flat_map]. rewrite map_app. f_equal; [|exact IH].
  rewrite map_map. reflexivity.
Qed.

Lemma cat_index : unique (map (get 0) R) = unique (flat_map (fun r => ascend m (get i r)) rows0).
Proof.
  rewrite cat_rows, map_map. unfold unique.
  rewrite (map_ext_in _ (fun k => nth 0 k Null)).
  2:{ intros k Hk. apply (proj1 (dedup_In _ keys_eqb_eq _ _)) in Hk.
      apply cat_keys_shape in Hk. destruct Hk as (r & a & _ & _ & ->). reflexivity. }
  rewrite (dedup_map_dedup keys_eqb cell_eqb keys_eqb_eq cell_eqb_eq).
  rewrite cat_keys. f_equal. clear.
  induction rows0 as [|r l IH]; [reflexivity|].
  cbn [flat_map]. rewrite map_app. f_equal; [|exact IH].
  rewrite map_map. cbn [nth]. apply map_id.
Qed.

Lemma cat_matches (k l : cell) :
  filter (fun r => cell_eqb (get 0 r) k && cell_eqb (get 1 r) l) R =
  if existsb (fun kk => keys_eqb kk [k; l]) (dedup keys_eqb K)
  then [[k; l; Int (Z.of_nat (List.length
          (filter (fun e => keys_eqb (key_of [2%nat; 1%nat] e) [k; l]) E)))]]
  else [].
Proof.
  rewrite cat_rows, filter_map_comm.
  rewrite (filter_ext_in _ (fun kk => keys_eqb kk [k; l])).
  2:{ intros kk Hkk.
      apply (proj1 (dedup_In _ keys_eqb_eq _ _)) in Hkk.
      apply cat_keys_shape in Hkk. destruct Hkk as (r & a & _ & _ & ->).
      cbn. now rewrite andb_true_r. }
  rewrite (filter_eq_NoDup keys_eqb keys_eqb_eq [k; l] _
             (dedup_NoDup keys_eqb keys_eqb_eq K)).
  now destruct (existsb _ _).
Qed.

Lemma cat_pivot_cell (k l : cell) :
  pivot_cell 0 1 2 R k l = Ok (pivot_value 0 1 2 R k l).
Proof.
  unfold pivot_cell, pivot_value. rewrite cat_matches.
  now destruct (existsb _ _).
Qed.

Lemma cat_pivot_value (k l : cell) :
  fill_cell (Int 0) (pivot_value 0 1 2 R k l) =
  Int (Z.of_nat (List.length
         (filter (fun e => keys_eqb (key_of [2%nat; 1%nat] e) [k; l]) E))).
Proof.
  unfold pivot_value. rewrite cat_matches.
  destruct (existsb _ _) eqn:Ex; [reflexivity|]. cbn [fill_cell].
  rewrite (filter_none _ E); [reflexivity|].
  intros e He. destruct (keys_eqb (key_of [2%nat; 1%nat] e) [k; l]) eqn:Ek;
    [|reflexivity].
  exfalso. apply keys_eqb_eq in Ek.
  assert (Hin : In [k; l] (dedup keys_eqb K)).
  { apply (dedup_In _ keys_eqb_eq). rewrite <- Ek. unfold K. now apply in_map. }
  assert (Hex : existsb (fun kk => keys_eqb kk [k; l]) (dedup keys_eqb K) = true).
  { apply existsb_exists. exists [k; l]. split; [assumption|]. now apply keys_eqb_eq. }
  congruence.
Qed.

Hypothesis m_tree : tree_like m.

Lemma cat_group_size (k l : cell) :
  List.length (filter (fun e => keys_eqb (key_of [2%nat; 1%nat] e) [k; l]) E) =
  cat_count m i j rows0 k l.
Proof.
  unfold E, expanded_rows, rs, cat_count. clear K R E rs.
  induction rows0 as [|r rest IH]; [reflexivity|].
  cbn [map flat_map]. rewrite filter_app, length_app.
  set (Q := fun r => cell_eqb (get j r) l && existsb (cell_eqb k) (ascend m (get i r))).
  transitivity ((if Q r then 1 else 0) + List.length (filter Q rest))%nat;
    [|cbn [filter]; now destruct (Q r)].
  f_equal; [|exact IH]. unfold Q.
  rewrite filter_map_comm, length_map.
  change (get 0 [get i r; get j r]) with (get i r).
  rewrite (filter_ext _ (fun a => cell_eqb (get j r) l && cell_eqb a k)).
  2:{ intros a. cbn. rewrite andb_true_r. apply andb_comm. }
  rewrite (existsb_pointwise (cell_eqb k) (fun a => cell_eqb a k))
    by (intros; apply cell_eqb_sym).
  destruct (cell_eqb (get j r) l); cbn [andb].
  - rewrite (filter_eq_NoDup cell_eqb cell_eqb_eq k _ (ascend_NoDup m (get i r) m_tree)).
    now destruct (existsb _ _).
  - now rewrite filter_false.
Qed.

Lemma cat_cell (k l : cell) :
  fill_cell (Int 0) (pivot_value 0 1 2 R k l) =
  Int (Z.of_nat (cat_count m i j rows0 k l)).
Proof. now rewrite cat_pivot_value, cat_group_size. Qed.

End CategoryGroups.

(** ** The encoding step on a pivoted table *)

Lemma col_names_strings (names : list string) : col_names (map Str names) = Ok names.
Proof.
  unfold col_names. induction names as [|n names IH]; [reflexivity|].
  cbn [map mapM bind]. now rewrite IH.
Qed.

Lemma index_of_middle (pre post : list string) (x : string) :
  mem x pre = false -> index_of x (pre ++ x :: post) = Some (List.length pre).
Proof.
  induction pre as [|c pre IH]; cbn [app index_of List.length]; intros H.
  - now rewrite String.eqb_refl.
  - cbn [mem existsb] in H. apply orb_false_iff in H. destruct H as [H1 H2].
    rewrite H1. fold (mem x pre) in H2. now rewrite (IH H2).
Qed.

Lemma mem_false_iff (x : string) (l : list string) : mem x l = false <-> ~ In x l.
Proof.
  unfold mem. split.
  - intros H Hin. assert (existsb (String.eqb x) l = true); [|congruence].
    apply existsb_exists. exists x. split; [assumption | apply String.eqb_refl].
  - intros H. destruct (existsb (String.eqb x) l) eqn:E; [|reflexivity].
    apply existsb_exists in E. destruct E as (y & Hy & Hxy).
    apply String.eqb_eq in Hxy. subst. contradiction.
Qed.

Lemma find_columns_seq (pre names : list string) :
  NoDup (pre ++ names) ->
  mapM (find_column (pre ++ names)) names = Ok (seq (List.length pre) (List.length names)).
Proof.
  revert pre. induction names as [|x names IH]; intros pre Hnd; [reflexivity|].
  cbn [mapM seq List.length]. unfold find_column at 1.
  rewrite index_of_middle.
  2:{ apply mem_false_iff. intros Hin. apply NoDup_remove_2 in Hnd.
      apply Hnd. apply in_or_app. now left. }
  cbn [bind].
  replace (pre ++ x :: names) with ((pre ++ [x]) ++ names)
    by (rewrite <- app_assoc; reflexivity).
  rewrite IH by (rewrite <- app_assoc; exact Hnd).
  rewrite length_app. cbn [List.length bind]. now rewrite Nat.add_1_r.
Qed.

Lemma cells_by_position (k : cell) (cells : list cell) :
  map (fun p => get p (k :: cells)) (seq 1 (List.length cells)) = cells.
Proof.
  rewrite <- seq_shift, map_map. cbn [get nth].
  induction cells as [|c cells IH]; [reflexivity|].
  cbn [List.length seq map nth]. f_equal.
  rewrite <- seq_shift, map_map. exact IH.
Qed.

Lemma combine_append {A B : Type} (l1 l2 : list A) (l1' l2' : list B) :
  List.length l1 = List.length l1' ->
  combine (l1 ++ l2) (l1' ++ l2') = combine l1 l1' ++ combine l2 l2'.
Proof.
  revert l1'. induction l1 as [|x l1 IH]; intros [|y l1'] H; try discriminate;
    [reflexivity|].
  cbn. f_equal. apply IH. now injection H.
Qed.

Lemma exclude_levels (names : list string) (column : string) (k x y : cell)
  (cells : list cell) :
  List.length cells = List.length names ->
  ~ In "taxid" names -> ~ In column names -> ~ In "pylifemap_count_type" names ->
  exclude_row ("taxid" :: names ++ [column; "pylifemap_count_type"]) names
              (k :: cells ++ [x; y]) = [k; x; y] /\
  filter (fun c => negb (mem c names))
         ("taxid" :: names ++ [column; "pylifemap_count_type"]) =
  ["taxid"; column; "pylifemap_count_type"].
Proof.
  intros Hlen H1 H2 H3.
  apply mem_false_iff in H1, H2, H3.
  assert (Hdrop : forall (ns : list string) (cs : list cell),
             (forall n, In n ns -> mem n names = true) ->
             filter (fun p : string * cell => negb (mem (fst p) names)) (combine ns cs) = []).
  { intros ns cs Hns. apply filter_none. intros [n c] Hin.
    apply in_combine_l in Hin. cbn [fst]. now rewrite (Hns n Hin). }
  assert (Hself : forall n, In n names -> mem n names = true).
  { intros n Hn. destruct (mem n names) eqn:E; [reflexivity|].
    apply mem_false_iff in E. contradiction. }
  split.
  - unfold exclude_row. cbn [combine filter fst]. rewrite H1. cbn [negb map snd].
    f_equal. rewrite combine_append by (now symmetry).
    rewrite filter_app, (Hdrop names cells Hself). cbn [app combine filter fst].
    now rewrite H2, H3.
  - cbn [filter]. rewrite H1. cbn [negb]. f_equal.
    rewrite filter_app, (filter_none _ names).
    + cbn [app filter]. now rewrite H2, H3.
    + intros n Hn. now rewrite (Hself n Hn).
Qed.

(** [preprocess_counts] on a pivoted table: the level columns of every row
    are encoded as one object, in the order of the levels. *)
Lemma preprocess_counts_closed (names : list string) (column : string)
  (rs : list row) :
  NoDup names ->
  ~ In "taxid" names -> ~ In column names -> ~ In "pylifemap_count_type" names ->
  column <> "taxid" -> column <> "pylifemap_count_type" ->
  (forall r, In r rs -> List.length r = S (List.length names)) ->
  preprocess_counts (PolarsDataFrame (mkDF ("taxid" :: names) rs)) (map Str names)
                    column =
  Ok (mkDF ["taxid"; column; "pylifemap_count_type"]
        (map (fun r => [get 0 r; Str (json_encode (combine names (tl r))); Str "count"])
             rs)).
Proof.
  intros Hnd H1 H2 H3 Hc1 Hc2 Hlen.
  unfold preprocess_counts. cbn [ensure_polars bind].
  rewrite col_names_strings. cbn [bind].
  unfold with_columns. cbn [mapM compile columns rows].
  assert (Hseq : mapM (find_column ("taxid" :: names)) names =
                 Ok (seq 1 (List.length names))).
  { apply (find_columns_seq ["taxid"] names). constructor; [exact H1 | exact Hnd]. }
  rewrite Hseq. cbn [bind map output_name].
  unfold check_unique. cbn [first_duplicate mem existsb].
  rewrite (eqb_neq_l _ _ Hc2). cbn [orb bind].
  assert (Hm1 : mem column ("taxid" :: names) = false).
  { change (mem column ("taxid" :: names))
      with (String.eqb column "taxid" || mem column names).
    rewrite (eqb_neq_l _ _ Hc1). now apply mem_false_iff. }
  assert (Hm2 : mem "pylifemap_count_type" (("taxid" :: names) ++ [column]) = false).
  { rewrite mem_app.
    change (mem "pylifemap_count_type" ("taxid" :: names))
      with (String.eqb "pylifemap_count_type" "taxid"
            || mem "pylifemap_count_type" names).
    rewrite (proj2 (mem_false_iff _ _) H3).
    cbn [mem existsb]. rewrite (eqb_neq_r _ _ Hc2). reflexivity. }
  assert (Hcols : upsert_name (upsert_name ("taxid" :: names) column)
                              "pylifemap_count_type" =
                  "taxid" :: names ++ [column; "pylifemap_count_type"]).
  { unfold upsert_name. rewrite Hm1, Hm2. cbn [app].
    now rewrite <- app_assoc. }
  rewrite (mapM_ext_ok _
             (fun r => r ++ [Str (json_encode (combine names (tl r))); Str "count"])).
  - cbn [bind fold_left]. rewrite Hcols.
    unfold select_all_exclude. cbn [columns rows]. f_equal.
    assert (Hrow : forall r, In r rs ->
               exists k cells, r = k :: cells /\ List.length cells = List.length names).
    { intros r Hr. specialize (Hlen r Hr). destruct r as [|k cells]; [discriminate|].
      exists k, cells. split; [reflexivity|]. cbn in Hlen. lia. }
    f_equal.
    + destruct rs as [|r0 rs'].
      * apply (proj2 (exclude_levels names column Null Null Null
                        (map (fun _ => Null) names)
                        (length_map _ _) H1 H2 H3)).
      * destruct (Hrow r0 (or_introl eq_refl)) as (k & cells & _ & Hc).
        apply (proj2 (exclude_levels names column k Null Null cells Hc H1 H2 H3)).
    + rewrite map_map. apply map_ext_in. intros r Hr.
      destruct (Hrow r Hr) as (k & cells & -> & Hc).
      apply (proj1 (exclude_levels names column k _ _ cells Hc H1 H2 H3)).
  - intros r Hr. unfold eval_row. cbn [mapM bind combine upsert_cells].
    unfold upsert_cell.
    rewrite (mem_false_index_of _ _ Hm1).
    unfold upsert_name at 1. rewrite Hm1.
    rewrite (mem_false_index_of _ _ Hm2).
    specialize (Hlen r Hr). destruct r as [|k cells]; [discriminate|].
    cbn in Hlen. injection Hlen as Hlen. rewrite <- Hlen.
    rewrite cells_by_position. cbn [tl]. now rewrite <- app_assoc.
Qed.

(** ** Closed form of [aggregate_cat] *)

Lemma text_cells (cs : list cell) :
  (forall c, In c cs -> is_text c = true) -> cs = map Str (strings cs).
Proof.
  induction cs as [|c cs IH]; intros H; [reflexivity|].
  pose proof (H c (or_introl eq_refl)) as Hc.
  destruct c; try discriminate. cbn. f_equal. apply IH. intros; apply H; now right.
Qed.

Lemma render_strings (names : list string) : map render (map Str names) = names.
Proof. rewrite map_map. apply map_id. Qed.

Lemma fill_null_rows (d : DataFrame) (value : cell) :
  fill_null d value = mkDF (columns d) (map (map (fill_cell value)) (rows d)).
Proof. reflexivity. Qed.

Section CategoryClosedForm.

Variable LMDATA : DataFrame.
Variable m : mapping.
Hypothesis LMDATA_mapping :
  select LMDATA [col "taxid"; col "pylifemap_ascend"] = Ok (mapping_frame m).
Hypothesis m_tree : tree_like m.

Variable o : pyobj.
Variable d : DataFrame.
Hypothesis o_table : ensure_polars o = Ok d.

Variables taxid_col column : string.
Variables i j : nat.
Hypothesis taxid_index : index_of taxid_col (columns d) = Some i.
Hypothesis taxid_values : forall r, In r (rows d) -> is_id32 (get i r) = true.
Hypothesis column_index : index_of column (columns d) = Some j.
Hypothesis column_values : forall r, In r (rows d) -> is_text (get j r) = true.

Hypothesis not_taxid : column <> "taxid".
Hypothesis not_ascend : column <> "pylifemap_ascend".
Hypothesis not_count : column <> "count".
Hypothesis not_marker : column <> "pylifemap_count_type".

Let levels : list cell := unique (map (get j) (rows d)).
Let names : list string := strings levels.

Hypothesis level_taxid : ~ In "taxid" names.
Hypothesis level_column : ~ In column names.
Hypothesis level_marker : ~ In "pylifemap_count_type" names.

Lemma levels_names : levels = map Str names.
Proof.
  apply text_cells. intros c Hc. unfold levels, unique in Hc.
  apply (proj1 (dedup_In _ cell_eqb_eq _ _)) in Hc.
  apply in_map_iff in Hc. destruct Hc as (r & <- & Hr). now apply column_values.
Qed.

Lemma names_NoDup : NoDup names.
Proof.
  apply (NoDup_map_inv Str). rewrite <- levels_names.
  apply (dedup_NoDup _ cell_eqb_eq).
Qed.

Lemma aggregate_cat_closed :
  aggregate_cat LMDATA o column false taxid_col =
  Ok (mkDF ["taxid"; column; "pylifemap_count_type"]
        (map (fun k => [fill_cell (Int 0) k;
                        Str (distribution m i j (rows d) k names);
                        Str "count"])
             (unique (flat_map (fun r => ascend m (get i r)) (rows d))))).
Proof.
  unfold aggregate_cat. rewrite o_table. cbn [bind].
  rewrite (ensure_int32_id _ _ (taxid_holds d taxid_col i taxid_index taxid_values)).
  cbn [bind].
  rewrite (select_two _ _ _ _ _ taxid_index column_index not_taxid). cbn [bind].
  unfold get_column, find_column. cbn [columns rows index_of].
  rewrite (eqb_neq_l _ _ not_taxid), String.eqb_refl. cbn [option_map bind].
  cbv zeta. rewrite map_map. cbn [get nth]. fold (get j).
  rewrite LMDATA_mapping. cbn [bind].
  assert (H1 : index_of "taxid" ["taxid"; column] = Some 0%nat) by reflexivity.
  assert (H2 : mem "pylifemap_ascend" ["taxid"; column] = false).
  { unfold mem. cbn [existsb]. now rewrite (eqb_neq_r _ _ not_ascend). }
  assert (H3 : first_duplicate ["taxid"; column] = None).
  { cbn [first_duplicate mem existsb]. now rewrite (eqb_neq_r _ _ not_taxid). }
  rewrite (join_left_mapping m _ _ H1 H2 H3). cbn [bind].
  rewrite (explode_joined m _ 0%nat H2).
  2:{ apply Forall_forall. intros r Hr. apply in_map_iff in Hr.
      destruct Hr as (r0 & <- & _). reflexivity. }
  cbn [bind].
  change (["taxid"; column] ++ ["pylifemap_ascend"])
    with ["taxid"; column; "pylifemap_ascend"].
  unfold group_by. cbn [columns rows mapM]. unfold find_column. cbn [index_of].
  rewrite (eqb_neq_r _ _ not_ascend), (eqb_neq_l _ _ not_taxid), !String.eqb_refl.
  cbn [String.eqb Ascii.eqb Bool.eqb option_map bind].
  unfold count, len. cbn [gb_keys gb_groups app].
  unfold check_unique. cbn [first_duplicate mem existsb].
  rewrite (eqb_neq_r _ _ not_ascend), (eqb_neq_l _ _ not_count).
  cbn [String.eqb Ascii.eqb Bool.eqb orb bind].
  unfold rename, find_column. cbn [columns rows index_of].
  rewrite String.eqb_refl. cbn [bind map].
  rewrite String.eqb_refl, (eqb_neq_l _ _ not_ascend).
  cbn [String.eqb Ascii.eqb Bool.eqb].
  unfold check_unique. cbn [first_duplicate mem existsb].
  rewrite (eqb_neq_r _ _ not_taxid), (eqb_neq_l _ _ not_count).
  cbn [String.eqb Ascii.eqb Bool.eqb orb bind].
  unfold pivot, find_column. cbn [columns rows index_of].
  rewrite (eqb_neq_l _ _ not_taxid), (eqb_neq_r _ _ not_count), !String.eqb_refl.
  cbn [String.eqb Ascii.eqb Bool.eqb option_map bind].
  rewrite (cat_levels m i j (rows d)), (cat_index m i j (rows d)).
  fold levels. rewrite levels_names, render_strings.
  unfold check_unique.
  rewrite (NoDup_first_duplicate ("taxid" :: names))
    by (constructor; [exact level_taxid | exact names_NoDup]).
  cbn [bind].
  pose (R := map (fun kg : list cell * list row =>
                    fst kg ++ [Int (Z.of_nat (List.length (snd kg)))])
                (groups_of [2%nat; 1%nat]
                   (expanded_rows m 0 (map (fun r => [get i r; get j r]) (rows d))))).
  rewrite (mapM_ext_ok _
             (fun k => k :: map (pivot_value 0 1 2 R k) (map Str names))).
  2:{ intros k _. rewrite (mapM_ext_ok _ (pivot_value 0 1 2 R k)); [reflexivity|].
      intros l _. apply cat_pivot_cell. }
  cbn [bind]. rewrite fill_null_rows. cbn [columns rows].
  change (unique (map (fun x : row => get j x) (rows d))) with levels.
  rewrite levels_names.
  rewrite preprocess_counts_closed; try assumption.
  - rewrite !map_map. cbn [bind]. f_equal. f_equal. apply map_ext. intros k.
    cbn [map get nth tl]. f_equal. f_equal. f_equal. unfold distribution. f_equal.
    rewrite !map_map.
    rewrite (map_ext _ (fun s => Int (Z.of_nat (cat_count m i j (rows d) k (Str s))))).
    2:{ intros s. apply (cat_cell m i j (rows d) m_tree). }
    clear. induction names as [|s l IH]; [reflexivity|].
    cbn [map combine]. now rewrite IH.
  - exact names_NoDup.
  - intros r Hr. rewrite map_map in Hr. apply in_map_iff in Hr.
    destruct Hr as (k & <- & _). cbn [map List.length]. now rewrite !length_map.
Qed.

End CategoryClosedForm.

Lemma strings_In (s : string) (cs : list cell) : In s (strings cs) <-> In (Str s) cs.
Proof.
  unfold strings. rewrite in_flat_map. split.
  - intros (c & Hc & H). destruct c; try contradiction.
    destruct H as [->|[]]. exact Hc.
  - intros H. exists (Str s). split; [exact H | now left].
Qed.

Lemma level_names_In (j : nat) (rs : list row) (s : string) :
  In s (strings (unique (map (get j) rs))) <-> exists r, In r rs /\ get j r = Str s.
Proof.
  rewrite strings_In. unfold unique. rewrite (dedup_In _ cell_eqb_eq).
  rewrite in_map_iff. split; intros (r & H1 & H2); exists r; now split.
Qed.

Lemma filter_length_pos {A : Type} (f : A -> bool) (x : A) (l : list A) :
  In x l -> f x = true -> (0 < List.length (filter f l))%nat.
Proof.
  intros Hx Hf.
  assert (H : In x (filter f l)) by (apply filter_In; now split).
  destruct (filter f l); [contradiction | cbn; lia].
Qed.




